(** * esi-isk: the character ledger ([isk/db/character.go])

    A shallow embedding of the per-character totals kept in the
    [characters] table: the row model and its two conversions, the
    affiliation binder, the accumulator that applies a donation or a
    contract to the rows of a batch, and the batch commit.

    Conventions of the embedding:
    - [int32] and [int64] are [Z]; the only arithmetic the package does on
      them is [++] and [--] on [int64] counters, written with [wrap64];
    - [float64] is Rocq's primitive binary64 float, so [+=] and [-=] round
      exactly as the Go program does;
    - [time.Time] is the instant it denotes, in nanoseconds counted from the
      zero time (January 1, year 1, 00:00 UTC);
    - a Go [error] result is an [option string] ([None] is [nil]); [panic]
      is the [Panicked] outcome of the [Outcome] monad;
    - the rows of a batch are reached through pointers that the batch itself
      allocates, one per character, so a slice of rows is a list of rows and
      mutation in place is a functional update of that list;
    - [log.Printf] writes to the log only and is left out. *)

From Stdlib Require Import ZArith String List Bool Lia.
From Stdlib Require Import Floats.PrimFloat Floats.FloatOps Floats.SpecFloat.
From Stdlib Require Import Numbers.Cyclic.Int63.Uint63.
From Stdlib Require Import Numbers.DecimalString.
From stdpp Require Import gmap.

#[local] Set Warnings "-inexact-float".
Import ListNotations.

Local Open Scope string_scope.
Local Open Scope Z_scope.

(** ** Machine numbers *)

Definition int32 := Z.
Definition int64 := Z.
Abbreviation float64 := PrimFloat.float.

(** Two's complement wrap-around of a 64-bit signed integer. *)
Definition wrap64 (z : Z) : int64 := (z + 2 ^ 63) mod 2 ^ 64 - 2 ^ 63.

Definition is_int64 (z : Z) : Prop := - 2 ^ 63 <= z < 2 ^ 63.

(** [fmt.Sprintf("%d", n)]. *)
Definition fmt_d (n : Z) : string := NilZero.string_of_int (Z.to_int n).

(** ** Time *)

Definition Time := Z.

Definition Before (t u : Time) : bool := t <? u.
Definition IsZero (t : Time) : bool := t =? 0.

(** [pq.NullTime]. *)
Module NullTime.
Record t := mk { Time : Time; Valid : bool }.
(** The zero value of the struct. *)
Definition zero : t := {| Time := 0; Valid := false |}.
End NullTime.

(** ** The data model *)

(** [Name] is declared elsewhere in the package; the ledger reads its [ID]. *)
Module Name.
Record t := mk { ID : int32; Name : string }.
End Name.

(** [Character] and [Corporation] are dereferenced unconditionally by the
    binder, [Alliance] is tested against [nil]. *)
Module Affiliation.
Record t := mk {
  Character : Name.t;
  Corporation : Name.t;
  Alliance : option Name.t
}.
End Affiliation.

Module Character.
Record t := mk {
  ID : int32;
  Name : string;
  CorporationID : int32;
  CorporationName : string;
  AllianceID : int32;
  AllianceName : string;
  Received : int64;
  ReceivedISK : float64;
  Received30 : int64;
  ReceivedISK30 : float64;
  Donated : int64;
  DonatedISK : float64;
  Donated30 : int64;
  DonatedISK30 : float64;
  LastDonated : Time;
  LastReceived : Time;
  GoodStanding : bool
}.
End Character.

Module CharacterRow.
Record t := mk {
  ID : int32;
  CorporationID : int32;
  AllianceID : int32;
  Received : int64;
  ReceivedISK : float64;
  Received30 : int64;
  ReceivedISK30 : float64;
  Donated : int64;
  DonatedISK : float64;
  Donated30 : int64;
  DonatedISK30 : float64;
  LastDonated : NullTime.t;
  LastReceived : NullTime.t;
  GoodStanding : bool
}.

(** [&CharacterRow{ID: charID}]: every other field has its zero value. *)
Definition fresh (charID : int32) : t :=
  {| ID := charID; CorporationID := 0; AllianceID := 0;
     Received := 0; ReceivedISK := 0%float;
     Received30 := 0; ReceivedISK30 := 0%float;
     Donated := 0; DonatedISK := 0%float;
     Donated30 := 0; DonatedISK30 := 0%float;
     LastDonated := NullTime.zero; LastReceived := NullTime.zero;
     GoodStanding := false |}.

(** The four counters hold 64-bit values. *)
Definition wf (c : t) : Prop :=
  is_int64 (Received c) /\ is_int64 (Received30 c) /\
  is_int64 (Donated c) /\ is_int64 (Donated30 c).
End CharacterRow.

(** The fields of [Donation] that the ledger reads. *)
Module Donation.
Record t := mk {
  Donator : int32;
  Recipient : int32;
  Amount : float64;
  Timestamp : Time
}.
End Donation.

(** ** The accumulator *)

(** The timestamp rule shared by both directions: the stored value is
    replaced when it is not valid or lies before the event. *)
Definition advance (last : NullTime.t) (ts : Time) : NullTime.t :=
  if negb (NullTime.Valid last) || Before (NullTime.Time last) ts
  then {| NullTime.Time := ts; NullTime.Valid := true |}
  else last.

(** Body of the inner loop of [addToTotals], for one row. *)
Definition addToChar (donation : Donation.t) (char : CharacterRow.t)
  : CharacterRow.t :=
  let amount := Donation.Amount donation in
  if CharacterRow.ID char =? Donation.Donator donation then
    {| CharacterRow.ID := CharacterRow.ID char;
       CharacterRow.CorporationID := CharacterRow.CorporationID char;
       CharacterRow.AllianceID := CharacterRow.AllianceID char;
       CharacterRow.Received := CharacterRow.Received char;
       CharacterRow.ReceivedISK := CharacterRow.ReceivedISK char;
       CharacterRow.Received30 := CharacterRow.Received30 char;
       CharacterRow.ReceivedISK30 := CharacterRow.ReceivedISK30 char;
       CharacterRow.Donated := wrap64 (CharacterRow.Donated char + 1);
       CharacterRow.DonatedISK := (CharacterRow.DonatedISK char + amount)%float;
       CharacterRow.Donated30 := wrap64 (CharacterRow.Donated30 char + 1);
       CharacterRow.DonatedISK30 :=
         (CharacterRow.DonatedISK30 char + amount)%float;
       CharacterRow.LastDonated :=
         advance (CharacterRow.LastDonated char) (Donation.Timestamp donation);
       CharacterRow.LastReceived := CharacterRow.LastReceived char;
       CharacterRow.GoodStanding := CharacterRow.GoodStanding char |}
  else if CharacterRow.ID char =? Donation.Recipient donation then
    {| CharacterRow.ID := CharacterRow.ID char;
       CharacterRow.CorporationID := CharacterRow.CorporationID char;
       CharacterRow.AllianceID := CharacterRow.AllianceID char;
       CharacterRow.Received := wrap64 (CharacterRow.Received char + 1);
       CharacterRow.ReceivedISK :=
         (CharacterRow.ReceivedISK char + amount)%float;
       CharacterRow.Received30 := wrap64 (CharacterRow.Received30 char + 1);
       CharacterRow.ReceivedISK30 :=
         (CharacterRow.ReceivedISK30 char + amount)%float;
       CharacterRow.Donated := CharacterRow.Donated char;
       CharacterRow.DonatedISK := CharacterRow.DonatedISK char;
       CharacterRow.Donated30 := CharacterRow.Donated30 char;
       CharacterRow.DonatedISK30 := CharacterRow.DonatedISK30 char;
       CharacterRow.LastDonated := CharacterRow.LastDonated char;
       CharacterRow.LastReceived :=
         advance (CharacterRow.LastReceived char) (Donation.Timestamp donation);
       CharacterRow.GoodStanding := CharacterRow.GoodStanding char |}
  else char.

(** [addToTotals(donation, characters...)]: every row of every slice. *)
Definition addToTotals (donation : Donation.t)
  (characters : list (list CharacterRow.t)) : list (list CharacterRow.t) :=
  map (map (addToChar donation)) characters.

(** Body of the inner loop of [removeFromTotals], for one row. *)
Definition removeFromChar (donation : Donation.t) (char : CharacterRow.t)
  : CharacterRow.t :=
  let amount := Donation.Amount donation in
  if CharacterRow.ID char =? Donation.Donator donation then
    {| CharacterRow.ID := CharacterRow.ID char;
       CharacterRow.CorporationID := CharacterRow.CorporationID char;
       CharacterRow.AllianceID := CharacterRow.AllianceID char;
       CharacterRow.Received := CharacterRow.Received char;
       CharacterRow.ReceivedISK := CharacterRow.ReceivedISK char;
       CharacterRow.Received30 := CharacterRow.Received30 char;
       CharacterRow.ReceivedISK30 := CharacterRow.ReceivedISK30 char;
       CharacterRow.Donated := CharacterRow.Donated char;
       CharacterRow.DonatedISK := CharacterRow.DonatedISK char;
       CharacterRow.Donated30 := wrap64 (CharacterRow.Donated30 char - 1);
       CharacterRow.DonatedISK30 :=
         (CharacterRow.DonatedISK30 char - amount)%float;
       CharacterRow.LastDonated := CharacterRow.LastDonated char;
       CharacterRow.LastReceived := CharacterRow.LastReceived char;
       CharacterRow.GoodStanding := CharacterRow.GoodStanding char |}
  else if CharacterRow.ID char =? Donation.Recipient donation then
    {| CharacterRow.ID := CharacterRow.ID char;
       CharacterRow.CorporationID := CharacterRow.CorporationID char;
       CharacterRow.AllianceID := CharacterRow.AllianceID char;
       CharacterRow.Received := CharacterRow.Received char;
       CharacterRow.ReceivedISK := CharacterRow.ReceivedISK char;
       CharacterRow.Received30 := wrap64 (CharacterRow.Received30 char - 1);
       CharacterRow.ReceivedISK30 :=
         (CharacterRow.ReceivedISK30 char - amount)%float;
       CharacterRow.Donated := CharacterRow.Donated char;
       CharacterRow.DonatedISK := CharacterRow.DonatedISK char;
       CharacterRow.Donated30 := CharacterRow.Donated30 char;
       CharacterRow.DonatedISK30 := CharacterRow.DonatedISK30 char;
       CharacterRow.LastDonated := CharacterRow.LastDonated char;
       CharacterRow.LastReceived := CharacterRow.LastReceived char;
       CharacterRow.GoodStanding := CharacterRow.GoodStanding char |}
  else char.

(** [removeFromTotals(donation, characters...)]. *)
Definition removeFromTotals (donation : Donation.t)
  (characters : list (list CharacterRow.t)) : list (list CharacterRow.t) :=
  map (map (removeFromChar donation)) characters.

(** ** Collaborators of the ledger *)

(** A Go [(value, error)] pair. *)
Inductive result (A : Type) : Type :=
| Ok (a : A)
| Err (e : string).
Arguments Ok {A} a.
Arguments Err {A} e.

(** A call either returns or panics with a value. *)
Inductive Outcome (A : Type) : Type :=
| Done (a : A)
| Panicked (v : string).
Arguments Done {A} a.
Arguments Panicked {A} v.

#[export] Instance Outcome_ret : MRet Outcome := fun A a => Done a.
#[export] Instance Outcome_bind : MBind Outcome := fun A B f m =>
  match m with
  | Done a => f a
  | Panicked v => Panicked v
  end.

(** The prepared statements of [cx] that the ledger runs. *)
Inductive Key : Type :=
| StmtCreateCharacter
| StmtUpdateCharacter
| StmtCharDetails.

(** The [characters] table, keyed by [character_id]. *)
Abbreviation Table := (gmap Z CharacterRow.t).

(** What the ledger cannot decide by itself: whether a statement, a scan or
    a name lookup fails, and with which error. [GetNames] answers with the
    names it knows, as (id, name) pairs with distinct ids. *)
Record Env := {
  queryFault : int32 -> option string;
  scanFault : list CharacterRow.t -> option string;
  GetNames : list int32 -> result (list (int32 * string));
  execFault : Key -> CharacterRow.t -> option string
}.

(** Modelled from the spec: [queryNamedResult] and the statement
    [cx.StmtCharDetails] are not among the sources. The store answers a
    keyed lookup by identity ID with "not found" or the full row, unless the
    query itself fails. *)
Definition queryNamedResult (env : Env) (db : Table) (charID : int32)
  : result (list CharacterRow.t) :=
  match queryFault env charID with
  | Some e => Err e
  | None =>
      match db !! charID with
      | Some row => Ok [row]
      | None => Ok []
      end
  end.

(** Modelled from the spec: [scan] is not among the sources; it decodes the
    rows of a result set, or fails. *)
Definition scan (env : Env) (rows : list CharacterRow.t)
  : result (list CharacterRow.t) :=
  match scanFault env rows with
  | Some e => Err e
  | None => Ok rows
  end.

(** Modelled from the spec: [executeNamed] and the statements
    [cx.StmtCreateCharacter] and [cx.StmtUpdateCharacter] are not among the
    sources. An insert stores the row under its identity ID, an update
    replaces the row stored under that ID, and a statement that fails leaves
    the table as it was. *)
Definition executeNamed (env : Env) (key : Key) (char : CharacterRow.t)
  (db : Table) : option string * Table :=
  match execFault env key char with
  | Some e => (Some e, db)
  | None =>
      match key with
      | StmtCreateCharacter => (None, <[CharacterRow.ID char := char]> db)
      | StmtUpdateCharacter =>
          match db !! CharacterRow.ID char with
          | Some _ => (None, <[CharacterRow.ID char := char]> db)
          | None => (None, db)
          end
      | StmtCharDetails => (None, db)
      end
  end.

(** [math.Round]: the nearest integer, halves away from zero. *)
Definition Round (x : float64) : float64 :=
  match Prim2SF x with
  | S754_finite s m e =>
      if 0 <=? e then x
      else
        let d := 2 ^ (- e) in
        let q := Z.pos m / d in
        let r := Z.pos m mod d in
        let n := if d <=? 2 * r then q + 1 else q in
        let f := PrimFloat.of_uint63 (Uint63.of_Z n) in
        if s then (- f)%float else f
  | _ => x
  end.

(** Modelled from the spec: [round2] is not among the sources; it rounds a
    monetary sum to 2 decimal places. *)
Definition round2 (f : float64) : float64 := (Round (f * 100) / 100)%float.

(** Modelled from the spec: [inInt32] is not among the sources; it tells
    whether an ID is already in the list of characters of the batch. *)
Definition inInt32 (x : int32) (xs : list int32) : bool :=
  existsb (Z.eqb x) xs.

(** ** The row model and its conversions *)

(** [(c *CharacterRow) toCharacter()]: the names are left empty, to be
    filled in by [getCharacterNames]; a timestamp that is not valid stays at
    the zero time. *)
Definition toCharacter (c : CharacterRow.t) : Character.t :=
  {| Character.ID := CharacterRow.ID c;
     Character.Name := "";
     Character.CorporationID := CharacterRow.CorporationID c;
     Character.CorporationName := "";
     Character.AllianceID := CharacterRow.AllianceID c;
     Character.AllianceName := "";
     Character.Received := CharacterRow.Received c;
     Character.ReceivedISK := round2 (CharacterRow.ReceivedISK c);
     Character.Received30 := CharacterRow.Received30 c;
     Character.ReceivedISK30 := round2 (CharacterRow.ReceivedISK30 c);
     Character.Donated := CharacterRow.Donated c;
     Character.DonatedISK := round2 (CharacterRow.DonatedISK c);
     Character.Donated30 := CharacterRow.Donated30 c;
     Character.DonatedISK30 := round2 (CharacterRow.DonatedISK30 c);
     Character.LastDonated :=
       if NullTime.Valid (CharacterRow.LastDonated c)
       then NullTime.Time (CharacterRow.LastDonated c) else 0;
     Character.LastReceived :=
       if NullTime.Valid (CharacterRow.LastReceived c)
       then NullTime.Time (CharacterRow.LastReceived c) else 0;
     Character.GoodStanding := CharacterRow.GoodStanding c |}.

(** [(c *Character) toRow()]. *)
Definition toRow (c : Character.t) : CharacterRow.t :=
  {| CharacterRow.ID := Character.ID c;
     CharacterRow.CorporationID := Character.CorporationID c;
     CharacterRow.AllianceID := Character.AllianceID c;
     CharacterRow.Received := Character.Received c;
     CharacterRow.ReceivedISK := Character.ReceivedISK c;
     CharacterRow.Received30 := Character.Received30 c;
     CharacterRow.ReceivedISK30 := Character.ReceivedISK30 c;
     CharacterRow.Donated := Character.Donated c;
     CharacterRow.DonatedISK := Character.DonatedISK c;
     CharacterRow.Donated30 := Character.Donated30 c;
     CharacterRow.DonatedISK30 := Character.DonatedISK30 c;
     CharacterRow.LastDonated :=
       {| NullTime.Time := Character.LastDonated c;
          NullTime.Valid := negb (IsZero (Character.LastDonated c)) |};
     CharacterRow.LastReceived :=
       {| NullTime.Time := Character.LastReceived c;
          NullTime.Valid := negb (IsZero (Character.LastReceived c)) |};
     CharacterRow.GoodStanding := Character.GoodStanding c |}.

(** Assignments to one field of a character or of a row. *)
Definition setName (name : string) (c : Character.t) : Character.t :=
  {| Character.ID := Character.ID c;
     Character.Name := name;
     Character.CorporationID := Character.CorporationID c;
     Character.CorporationName := Character.CorporationName c;
     Character.AllianceID := Character.AllianceID c;
     Character.AllianceName := Character.AllianceName c;
     Character.Received := Character.Received c;
     Character.ReceivedISK := Character.ReceivedISK c;
     Character.Received30 := Character.Received30 c;
     Character.ReceivedISK30 := Character.ReceivedISK30 c;
     Character.Donated := Character.Donated c;
     Character.DonatedISK := Character.DonatedISK c;
     Character.Donated30 := Character.Donated30 c;
     Character.DonatedISK30 := Character.DonatedISK30 c;
     Character.LastDonated := Character.LastDonated c;
     Character.LastReceived := Character.LastReceived c;
     Character.GoodStanding := Character.GoodStanding c |}.

Definition setCorporationName (name : string) (c : Character.t)
  : Character.t :=
  {| Character.ID := Character.ID c;
     Character.Name := Character.Name c;
     Character.CorporationID := Character.CorporationID c;
     Character.CorporationName := name;
     Character.AllianceID := Character.AllianceID c;
     Character.AllianceName := Character.AllianceName c;
     Character.Received := Character.Received c;
     Character.ReceivedISK := Character.ReceivedISK c;
     Character.Received30 := Character.Received30 c;
     Character.ReceivedISK30 := Character.ReceivedISK30 c;
     Character.Donated := Character.Donated c;
     Character.DonatedISK := Character.DonatedISK c;
     Character.Donated30 := Character.Donated30 c;
     Character.DonatedISK30 := Character.DonatedISK30 c;
     Character.LastDonated := Character.LastDonated c;
     Character.LastReceived := Character.LastReceived c;
     Character.GoodStanding := Character.GoodStanding c |}.

Definition setAllianceName (name : string) (c : Character.t) : Character.t :=
  {| Character.ID := Character.ID c;
     Character.Name := Character.Name c;
     Character.CorporationID := Character.CorporationID c;
     Character.CorporationName := Character.CorporationName c;
     Character.AllianceID := Character.AllianceID c;
     Character.AllianceName := name;
     Character.Received := Character.Received c;
     Character.ReceivedISK := Character.ReceivedISK c;
     Character.Received30 := Character.Received30 c;
     Character.ReceivedISK30 := Character.ReceivedISK30 c;
     Character.Donated := Character.Donated c;
     Character.DonatedISK := Character.DonatedISK c;
     Character.Donated30 := Character.Donated30 c;
     Character.DonatedISK30 := Character.DonatedISK30 c;
     Character.LastDonated := Character.LastDonated c;
     Character.LastReceived := Character.LastReceived c;
     Character.GoodStanding := Character.GoodStanding c |}.

Definition setCorporationID (id : int32) (c : CharacterRow.t)
  : CharacterRow.t :=
  {| CharacterRow.ID := CharacterRow.ID c;
     CharacterRow.CorporationID := id;
     CharacterRow.AllianceID := CharacterRow.AllianceID c;
     CharacterRow.Received := CharacterRow.Received c;
     CharacterRow.ReceivedISK := CharacterRow.ReceivedISK c;
     CharacterRow.Received30 := CharacterRow.Received30 c;
     CharacterRow.ReceivedISK30 := CharacterRow.ReceivedISK30 c;
     CharacterRow.Donated := CharacterRow.Donated c;
     CharacterRow.DonatedISK := CharacterRow.DonatedISK c;
     CharacterRow.Donated30 := CharacterRow.Donated30 c;
     CharacterRow.DonatedISK30 := CharacterRow.DonatedISK30 c;
     CharacterRow.LastDonated := CharacterRow.LastDonated c;
     CharacterRow.LastReceived := CharacterRow.LastReceived c;
     CharacterRow.GoodStanding := CharacterRow.GoodStanding c |}.

Definition setAllianceID (id : int32) (c : CharacterRow.t) : CharacterRow.t :=
  {| CharacterRow.ID := CharacterRow.ID c;
     CharacterRow.CorporationID := CharacterRow.CorporationID c;
     CharacterRow.AllianceID := id;
     CharacterRow.Received := CharacterRow.Received c;
     CharacterRow.ReceivedISK := CharacterRow.ReceivedISK c;
     CharacterRow.Received30 := CharacterRow.Received30 c;
     CharacterRow.ReceivedISK30 := CharacterRow.ReceivedISK30 c;
     CharacterRow.Donated := CharacterRow.Donated c;
     CharacterRow.DonatedISK := CharacterRow.DonatedISK c;
     CharacterRow.Donated30 := CharacterRow.Donated30 c;
     CharacterRow.DonatedISK30 := CharacterRow.DonatedISK30 c;
     CharacterRow.LastDonated := CharacterRow.LastDonated c;
     CharacterRow.LastReceived := CharacterRow.LastReceived c;
     CharacterRow.GoodStanding := CharacterRow.GoodStanding c |}.

(** ** Loading a character *)

(** [scanCharacterRow]: the first scanned row, if there is one. *)
Definition scanCharacterRow (env : Env) (rows : list CharacterRow.t)
  : result CharacterRow.t :=
  match scan env rows with
  | Err e => Err e
  | Ok res =>
      match res with
      | i :: _ => Ok i
      | [] => Err "character not found"
      end
  end.

(** One turn of the loop over [names] in [getCharacterNames]; a name of an
    unknown ID is only logged. *)
Definition fillName (char : Character.t) (entry : int32 * string)
  : Character.t :=
  let (id, name) := entry in
  if id =? Character.ID char then setName name char
  else if id =? Character.CorporationID char then setCorporationName name char
  else if id =? Character.AllianceID char then setAllianceName name char
  else char.

(** [getCharacterNames]. *)
Definition getCharacterNames (env : Env) (row : CharacterRow.t)
  : result Character.t :=
  let ids :=
    List.filter (fun id => 0 <? id)
      [CharacterRow.ID row; CharacterRow.CorporationID row;
       CharacterRow.AllianceID row] in
  match GetNames env ids with
  | Err e => Err e
  | Ok names => Ok (fold_left fillName names (toCharacter row))
  end.

(** [GetCharacter]. *)
Definition GetCharacter (env : Env) (db : Table) (charID : int32)
  : result Character.t :=
  match queryNamedResult env db charID with
  | Err e => Err e
  | Ok rows =>
      match scanCharacterRow env rows with
      | Err e => Err e
      | Ok charRow => getCharacterNames env charRow
      end
  end.

(** ** The affiliation binder *)

(** [getAffiliation]: the first affiliation of the character, or a panic. *)
Fixpoint getAffiliation (charID : int32) (affiliations : list Affiliation.t)
  : Outcome Affiliation.t :=
  match affiliations with
  | [] => Panicked ("no affiliation found for character " ++ fmt_d charID)
  | aff :: rest =>
      if Name.ID (Affiliation.Character aff) =? charID then Done aff
      else getAffiliation charID rest
  end.

(** [bindAffiliation]. *)
Definition bindAffiliation (env : Env) (db : Table) (charID : int32)
  (affiliations : list Affiliation.t) : Outcome (CharacterRow.t * bool) :=
  aff ← getAffiliation charID affiliations;
  let '(row, new) :=
    match GetCharacter env db charID with
    | Err _ => (CharacterRow.fresh charID, true)
    | Ok char => (toRow char, false)
    end in
  let row := setCorporationID (Name.ID (Affiliation.Corporation aff)) row in
  let row :=
    match Affiliation.Alliance aff with
    | Some alliance => setAllianceID (Name.ID alliance) row
    | None => row
    end in
  Done (row, new).

(** ** The batch commit *)

(** [executeChar]: the statement receives the fourteen columns of the row. *)
Definition executeChar (env : Env) (char : CharacterRow.t) (key : Key)
  (db : Table) : option string * Table :=
  executeNamed env key char db.

Definition NewCharacter (env : Env) (char : CharacterRow.t) (db : Table)
  : option string * Table :=
  executeChar env char StmtCreateCharacter db.

Definition updateCharacter (env : Env) (char : CharacterRow.t) (db : Table)
  : option string * Table :=
  executeChar env char StmtUpdateCharacter db.

(** One of the two loops of [saveCharacters]: [save] is [NewCharacter] or
    [updateCharacter]; a failure is logged and its character ID appended to
    [failedChars]. *)
Fixpoint saveEach
  (save : CharacterRow.t -> Table -> option string * Table)
  (chars : list CharacterRow.t) (failedChars : list string) (db : Table)
  : list string * Table :=
  match chars with
  | [] => (failedChars, db)
  | char :: rest =>
      let '(err, db') := save char db in
      let failedChars' :=
        match err with
        | Some _ => (failedChars ++ [fmt_d (CharacterRow.ID char)])%list
        | None => failedChars
        end in
      saveEach save rest failedChars' db'
  end.

(** [saveCharacters]. *)
Definition saveCharacters (env : Env)
  (newCharacters updatedCharacters : list CharacterRow.t) (db : Table)
  : option string * Table :=
  let '(failedChars, db) := saveEach (NewCharacter env) newCharacters [] db in
  let '(failedChars, db) :=
    saveEach (updateCharacter env) updatedCharacters failedChars db in
  if (0 <? length failedChars)%nat
  then (Some ("failed to save character(s): " ++ String.concat ", " failedChars),
        db)
  else (None, db).

(** ** Batches of donations *)

(** The three local slices of [SaveCharacterDonations] and of
    [SaveCharacterContracts]. *)
Record Batch := {
  newCharacters : list CharacterRow.t;
  updatedCharacters : list CharacterRow.t;
  allCharacters : list int32
}.

Definition emptyBatch : Batch :=
  {| newCharacters := []; updatedCharacters := []; allCharacters := [] |}.

(** One turn of the loop over the two participants of an event. *)
Definition bindCharacter (env : Env) (db : Table)
  (affiliations : list Affiliation.t) (b : Batch) (charID : int32)
  : Outcome Batch :=
  if inInt32 charID (allCharacters b) then Done b
  else
    let all := (allCharacters b ++ [charID])%list in
    '(char, new) ← bindAffiliation env db charID affiliations;
    if new : bool then
      Done {| newCharacters := (newCharacters b ++ [char])%list;
              updatedCharacters := updatedCharacters b;
              allCharacters := all |}
    else
      Done {| newCharacters := newCharacters b;
              updatedCharacters := (updatedCharacters b ++ [char])%list;
              allCharacters := all |}.

(** The call of the accumulator on the two slices of the batch. *)
Definition applyDonation (addition : bool) (donation : Donation.t) (b : Batch)
  : Batch :=
  let characters := [newCharacters b; updatedCharacters b] in
  let characters :=
    if addition then addToTotals donation characters
    else removeFromTotals donation characters in
  {| newCharacters := nth 0 characters [];
     updatedCharacters := nth 1 characters [];
     allCharacters := allCharacters b |}.

(** One turn of the loop over the donations. *)
Definition donationStep (env : Env) (db : Table)
  (affiliations : list Affiliation.t) (addition : bool) (b : Batch)
  (donation : Donation.t) : Outcome Batch :=
  b ← bindCharacter env db affiliations b (Donation.Donator donation);
  b ← bindCharacter env db affiliations b (Donation.Recipient donation);
  Done (applyDonation addition donation b).

(** A loop whose body may panic. *)
Fixpoint forEach {A S : Type} (body : S -> A -> Outcome S) (xs : list A)
  (s : S) : Outcome S :=
  match xs with
  | [] => Done s
  | x :: rest => s' ← body s x; forEach body rest s'
  end.

(** The loop of [SaveCharacterDonations]. *)
Definition donationLoop (env : Env) (db : Table)
  (donations : list Donation.t) (affiliations : list Affiliation.t)
  (addition : bool) : Outcome Batch :=
  forEach (donationStep env db affiliations addition) donations emptyBatch.

(** [SaveCharacterDonations]: the error it returns, or the panic that ends
    it, and the table it leaves. *)
Definition SaveCharacterDonations (env : Env) (db : Table)
  (donations : list Donation.t) (affiliations : list Affiliation.t)
  (addition : bool) : Outcome (option string) * Table :=
  match donationLoop env db donations affiliations addition with
  | Panicked v => (Panicked v, db)
  | Done b =>
      let '(err, db') :=
        saveCharacters env (newCharacters b) (updatedCharacters b) db in
      (Done err, db')
  end.

(** ** Batches of contracts *)

(** Modelled from the spec: [Contract] is declared in a file that is not
    among the sources. The ledger reads its two participants and its
    acceptance flag; amount and timestamp are as for a donation. *)
Module Contract.
Record t := mk {
  Donator : int32;
  Receiver : int32;
  Accepted : bool;
  Amount : float64;
  Timestamp : Time
}.
End Contract.

Section Contracts.

(** The two accumulators for contracts are defined in a file that is not
    among the sources: each takes the contract and the two slices and
    leaves the two slices. *)
Variable addToContractTotals removeFromContractTotals :
  Contract.t -> list CharacterRow.t -> list CharacterRow.t ->
  list CharacterRow.t * list CharacterRow.t.

Definition applyContract (addition : bool) (contract : Contract.t)
  (b : Batch) : Batch :=
  let '(new, updated) :=
    if addition
    then addToContractTotals contract (newCharacters b) (updatedCharacters b)
    else removeFromContractTotals contract (newCharacters b)
           (updatedCharacters b) in
  {| newCharacters := new;
     updatedCharacters := updated;
     allCharacters := allCharacters b |}.

(** One turn of the loop over the contracts. *)
Definition contractStep (env : Env) (db : Table)
  (affiliations : list Affiliation.t) (addition : bool) (b : Batch)
  (contract : Contract.t) : Outcome Batch :=
  if negb (Contract.Accepted contract) then Done b
  else
    b ← bindCharacter env db affiliations b (Contract.Donator contract);
    b ← bindCharacter env db affiliations b (Contract.Receiver contract);
    Done (applyContract addition contract b).

(** The loop of [SaveCharacterContracts]. *)
Definition contractLoop (env : Env) (db : Table)
  (donations : list Contract.t) (affiliations : list Affiliation.t)
  (addition : bool) : Outcome Batch :=
  forEach (contractStep env db affiliations addition) donations emptyBatch.

(** [SaveCharacterContracts]. *)
Definition SaveCharacterContracts (env : Env) (db : Table)
  (donations : list Contract.t) (affiliations : list Affiliation.t)
  (addition : bool) : Outcome (option string) * Table :=
  match contractLoop env db donations affiliations addition with
  | Panicked v => (Panicked v, db)
  | Done b =>
      let '(err, db') :=
        saveCharacters env (newCharacters b) (updatedCharacters b) db in
      (Done err, db')
  end.

End Contracts.

(** ** Saving one character *)

(** [SaveCharacter]. *)
Definition SaveCharacter (env : Env) (char : Character.t) (db : Table)
  : option string * Table :=
  updateCharacter env (toRow char) db.

(** ** The details of a character *)

Module CharDetails.
Record t := mk {
  Character : Character.t;
  Donations : list Donation.t;
  Contracts : list Contract.t;
  Donated : list Donation.t;
  Contracted : list Contract.t
}.
End CharDetails.

Section Details.

(** The four histories of a character are read by functions that are not
    among the sources: each answers with a list of events or with an
    error. *)
Variable getCharContracts getCharContracted :
  int32 -> result (list Contract.t).
Variable GetCharDonations GetCharDonated :
  int32 -> result (list Donation.t).

(** [GetCharDetails]. *)
Definition GetCharDetails (env : Env) (db : Table) (charID : int32)
  : result CharDetails.t :=
  match GetCharacter env db charID with
  | Err e => Err e
  | Ok char =>
      match getCharContracts charID with
      | Err e => Err e
      | Ok contracts =>
          match getCharContracted charID with
          | Err e => Err e
          | Ok contracted =>
              match GetCharDonations charID with
              | Err e => Err e
              | Ok donations =>
                  match GetCharDonated charID with
                  | Err e => Err e
                  | Ok donated =>
                      Ok {| CharDetails.Character := char;
                            CharDetails.Donations := donations;
                            CharDetails.Donated := donated;
                            CharDetails.Contracts := contracts;
                            CharDetails.Contracted := contracted |}
                  end
              end
          end
      end
  end.

End Details.

(** * Specifications *)

(** What subtractive application may change in a row: nothing but the two
    30-day fields of the side on which the row takes part, the donator side
    being tested first. *)
Definition removed (d : Donation.t) (c c' : CharacterRow.t) : Prop :=
  CharacterRow.ID c' = CharacterRow.ID c /\
  CharacterRow.CorporationID c' = CharacterRow.CorporationID c /\
  CharacterRow.AllianceID c' = CharacterRow.AllianceID c /\
  CharacterRow.GoodStanding c' = CharacterRow.GoodStanding c /\
  CharacterRow.Donated c' = CharacterRow.Donated c /\
  CharacterRow.DonatedISK c' = CharacterRow.DonatedISK c /\
  CharacterRow.Received c' = CharacterRow.Received c /\
  CharacterRow.ReceivedISK c' = CharacterRow.ReceivedISK c /\
  CharacterRow.LastDonated c' = CharacterRow.LastDonated c /\
  CharacterRow.LastReceived c' = CharacterRow.LastReceived c /\
  if CharacterRow.ID c =? Donation.Donator d then
    CharacterRow.Donated30 c' = wrap64 (CharacterRow.Donated30 c - 1) /\
    CharacterRow.DonatedISK30 c' =
      (CharacterRow.DonatedISK30 c - Donation.Amount d)%float /\
    CharacterRow.Received30 c' = CharacterRow.Received30 c /\
    CharacterRow.ReceivedISK30 c' = CharacterRow.ReceivedISK30 c
  else if CharacterRow.ID c =? Donation.Recipient d then
    CharacterRow.Received30 c' = wrap64 (CharacterRow.Received30 c - 1) /\
    CharacterRow.ReceivedISK30 c' =
      (CharacterRow.ReceivedISK30 c - Donation.Amount d)%float /\
    CharacterRow.Donated30 c' = CharacterRow.Donated30 c /\
    CharacterRow.DonatedISK30 c' = CharacterRow.DonatedISK30 c
  else c' = c.

(** The four 30-day fields of [c'] are those of [c]. *)
Definition window_restored (c c' : CharacterRow.t) : Prop :=
  CharacterRow.Donated30 c' = CharacterRow.Donated30 c /\
  CharacterRow.DonatedISK30 c' = CharacterRow.DonatedISK30 c /\
  CharacterRow.Received30 c' = CharacterRow.Received30 c /\
  CharacterRow.ReceivedISK30 c' = CharacterRow.ReceivedISK30 c.

(** The lifetime totals and the timestamps of [c'] are those of [c]. *)
Definition same_lifetime (c c' : CharacterRow.t) : Prop :=
  CharacterRow.Donated c' = CharacterRow.Donated c /\
  CharacterRow.DonatedISK c' = CharacterRow.DonatedISK c /\
  CharacterRow.Received c' = CharacterRow.Received c /\
  CharacterRow.ReceivedISK c' = CharacterRow.ReceivedISK c /\
  CharacterRow.LastDonated c' = CharacterRow.LastDonated c /\
  CharacterRow.LastReceived c' = CharacterRow.LastReceived c.

(** A row after an event was added and then removed: the 30-day counts are
    back, a 30-day value went through one [float64] addition and one
    subtraction on the side on which the row takes part, and the lifetime
    fields are those of the addition alone. *)
Definition added_then_removed (d : Donation.t) (c c' : CharacterRow.t)
  : Prop :=
  let amount := Donation.Amount d in
  CharacterRow.Donated30 c' = CharacterRow.Donated30 c /\
  CharacterRow.Received30 c' = CharacterRow.Received30 c /\
  CharacterRow.DonatedISK30 c' =
    (if CharacterRow.ID c =? Donation.Donator d
     then (CharacterRow.DonatedISK30 c + amount - amount)%float
     else CharacterRow.DonatedISK30 c) /\
  CharacterRow.ReceivedISK30 c' =
    (if CharacterRow.ID c =? Donation.Donator d
     then CharacterRow.ReceivedISK30 c
     else if CharacterRow.ID c =? Donation.Recipient d
     then (CharacterRow.ReceivedISK30 c + amount - amount)%float
     else CharacterRow.ReceivedISK30 c) /\
  same_lifetime (addToChar d c) c'.

(** The stored timestamp is absent or not after [ts]. *)
Definition not_after (last : NullTime.t) (ts : Time) : Prop :=
  NullTime.Valid last = true -> NullTime.Time last <= ts.

(** The donator of [d] ends with [ts] as its last donation, provided what
    it had stored was not later. *)
Definition lastDonated_is (d : Donation.t) (ts : Time)
  (c c' : CharacterRow.t) : Prop :=
  CharacterRow.ID c = Donation.Donator d ->
  not_after (CharacterRow.LastDonated c) ts ->
  CharacterRow.LastDonated c' = {| NullTime.Time := ts; NullTime.Valid := true |}.

(** A row after a donation of a character to itself was added. The row of
    that character keeps its ID, its affiliation and its standing flag; its
    two donated counts are one more and its two donated sums the amount
    more; its last donation is valid and is the later of the stored one, if
    that was valid, and the event; its received side, the last reception
    included, is as before. Any other row is untouched. *)
Definition self_donated (d : Donation.t) (c c' : CharacterRow.t) : Prop :=
  if CharacterRow.ID c =? Donation.Donator d then
    CharacterRow.ID c' = CharacterRow.ID c /\
    CharacterRow.CorporationID c' = CharacterRow.CorporationID c /\
    CharacterRow.AllianceID c' = CharacterRow.AllianceID c /\
    CharacterRow.GoodStanding c' = CharacterRow.GoodStanding c /\
    CharacterRow.Donated c' = wrap64 (CharacterRow.Donated c + 1) /\
    CharacterRow.Donated30 c' = wrap64 (CharacterRow.Donated30 c + 1) /\
    CharacterRow.DonatedISK c' =
      (CharacterRow.DonatedISK c + Donation.Amount d)%float /\
    CharacterRow.DonatedISK30 c' =
      (CharacterRow.DonatedISK30 c + Donation.Amount d)%float /\
    NullTime.Valid (CharacterRow.LastDonated c') = true /\
    NullTime.Time (CharacterRow.LastDonated c') =
      (if NullTime.Valid (CharacterRow.LastDonated c)
       then Z.max (NullTime.Time (CharacterRow.LastDonated c))
              (Donation.Timestamp d)
       else Donation.Timestamp d) /\
    CharacterRow.Received c' = CharacterRow.Received c /\
    CharacterRow.Received30 c' = CharacterRow.Received30 c /\
    CharacterRow.ReceivedISK c' = CharacterRow.ReceivedISK c /\
    CharacterRow.ReceivedISK30 c' = CharacterRow.ReceivedISK30 c /\
    CharacterRow.LastReceived c' = CharacterRow.LastReceived c
  else c' = c.

(** The affiliation of [aff] written into a row, as the binder does it. *)
Definition affiliated (aff : Affiliation.t) (row : CharacterRow.t)
  : CharacterRow.t :=
  let row := setCorporationID (Name.ID (Affiliation.Corporation aff)) row in
  match Affiliation.Alliance aff with
  | Some alliance => setAllianceID (Name.ID alliance) row
  | None => row
  end.

(** The four monetary sums of [row] are those of [stored], rounded. *)
Definition sums_rounded (stored row : CharacterRow.t) : Prop :=
  CharacterRow.ReceivedISK row = round2 (CharacterRow.ReceivedISK stored) /\
  CharacterRow.ReceivedISK30 row = round2 (CharacterRow.ReceivedISK30 stored) /\
  CharacterRow.DonatedISK row = round2 (CharacterRow.DonatedISK stored) /\
  CharacterRow.DonatedISK30 row = round2 (CharacterRow.DonatedISK30 stored).

(** The four monetary sums of [row] are zero. *)
Definition sums_zero (row : CharacterRow.t) : Prop :=
  CharacterRow.ReceivedISK row = 0%float /\
  CharacterRow.ReceivedISK30 row = 0%float /\
  CharacterRow.DonatedISK row = 0%float /\
  CharacterRow.DonatedISK30 row = 0%float.

(** The four monetary sums of a character are those of the row, rounded;
    those that the accumulator leaves are float sums, not rounded. *)
Definition projection_rounds (c : CharacterRow.t) : Prop :=
  Character.ReceivedISK (toCharacter c) = round2 (CharacterRow.ReceivedISK c) /\
  Character.ReceivedISK30 (toCharacter c) =
    round2 (CharacterRow.ReceivedISK30 c) /\
  Character.DonatedISK (toCharacter c) = round2 (CharacterRow.DonatedISK c) /\
  Character.DonatedISK30 (toCharacter c) = round2 (CharacterRow.DonatedISK30 c).

(** The four sums of a row after the accumulator added an event to it:
    on the side on which the row takes part, the donator side being tested
    first, both sums are the [float64] sum of what they were and the amount;
    the other sums are what they were. *)
Definition sums_added (d : Donation.t) (c c' : CharacterRow.t) : Prop :=
  let amount := Donation.Amount d in
  if CharacterRow.ID c =? Donation.Donator d then
    CharacterRow.DonatedISK c' = (CharacterRow.DonatedISK c + amount)%float /\
    CharacterRow.DonatedISK30 c' =
      (CharacterRow.DonatedISK30 c + amount)%float /\
    CharacterRow.ReceivedISK c' = CharacterRow.ReceivedISK c /\
    CharacterRow.ReceivedISK30 c' = CharacterRow.ReceivedISK30 c
  else if CharacterRow.ID c =? Donation.Recipient d then
    CharacterRow.ReceivedISK c' =
      (CharacterRow.ReceivedISK c + amount)%float /\
    CharacterRow.ReceivedISK30 c' =
      (CharacterRow.ReceivedISK30 c + amount)%float /\
    CharacterRow.DonatedISK c' = CharacterRow.DonatedISK c /\
    CharacterRow.DonatedISK30 c' = CharacterRow.DonatedISK30 c
  else
    CharacterRow.DonatedISK c' = CharacterRow.DonatedISK c /\
    CharacterRow.DonatedISK30 c' = CharacterRow.DonatedISK30 c /\
    CharacterRow.ReceivedISK c' = CharacterRow.ReceivedISK c /\
    CharacterRow.ReceivedISK30 c' = CharacterRow.ReceivedISK30 c.

(** The four sums of a row after the accumulator removed an event from it:
    the 30-day sum of the side on which the row takes part is the [float64]
    difference of what it was and the amount; the other sums are what they
    were. *)
Definition sums_removed (d : Donation.t) (c c' : CharacterRow.t) : Prop :=
  let amount := Donation.Amount d in
  CharacterRow.DonatedISK c' = CharacterRow.DonatedISK c /\
  CharacterRow.ReceivedISK c' = CharacterRow.ReceivedISK c /\
  if CharacterRow.ID c =? Donation.Donator d then
    CharacterRow.DonatedISK30 c' =
      (CharacterRow.DonatedISK30 c - amount)%float /\
    CharacterRow.ReceivedISK30 c' = CharacterRow.ReceivedISK30 c
  else if CharacterRow.ID c =? Donation.Recipient d then
    CharacterRow.ReceivedISK30 c' =
      (CharacterRow.ReceivedISK30 c - amount)%float /\
    CharacterRow.DonatedISK30 c' = CharacterRow.DonatedISK30 c
  else
    CharacterRow.DonatedISK30 c' = CharacterRow.DonatedISK30 c /\
    CharacterRow.ReceivedISK30 c' = CharacterRow.ReceivedISK30 c.

(** Neither accumulator rounds: for every event and all rows of all
    slices, the sums are as above. *)
Definition accumulates_unrounded : Prop :=
  forall (d : Donation.t) (characters : list (list CharacterRow.t)),
    Forall2 (Forall2 (sums_added d)) characters (addToTotals d characters) /\
    Forall2 (Forall2 (sums_removed d)) characters
      (removeFromTotals d characters).

(** There is an affiliation for the character in the list. *)
Definition hasAffiliation (charID : int32) (affiliations : list Affiliation.t)
  : bool :=
  existsb (fun aff => Name.ID (Affiliation.Character aff) =? charID)
    affiliations.

(** The value of the panic of [getAffiliation]. *)
Definition noAffiliation (charID : int32) : string :=
  "no affiliation found for character " ++ fmt_d charID.

(** An event names a character for which there is no affiliation. *)
Definition donation_unaffiliated (affiliations : list Affiliation.t)
  (d : Donation.t) : Prop :=
  hasAffiliation (Donation.Donator d) affiliations = false \/
  hasAffiliation (Donation.Recipient d) affiliations = false.

Definition contract_unaffiliated (affiliations : list Affiliation.t)
  (c : Contract.t) : Prop :=
  hasAffiliation (Contract.Donator c) affiliations = false \/
  hasAffiliation (Contract.Receiver c) affiliations = false.

(** A panic of the batch for want of an affiliation of some character. *)
Definition unaffiliated_panic (affiliations : list Affiliation.t) (v : string)
  : Prop :=
  exists charID,
    hasAffiliation charID affiliations = false /\ v = noAffiliation charID.

(** Every character that the batch knows has an affiliation. *)
Definition all_affiliated (affiliations : list Affiliation.t) (b : Batch)
  : Prop :=
  forall charID, inInt32 charID (allCharacters b) = true ->
                 hasAffiliation charID affiliations = true.

Module SpecModel.
(** Modelled from the spec: [addToContractTotals] and
    [removeFromContractTotals] are defined in a file that is not among the
    sources. A contract is applied as a donation is: to the rows of its
    donator and of its receiver, with its amount and its timestamp. *)
Definition asDonation (contract : Contract.t) : Donation.t :=
  {| Donation.Donator := Contract.Donator contract;
     Donation.Recipient := Contract.Receiver contract;
     Donation.Amount := Contract.Amount contract;
     Donation.Timestamp := Contract.Timestamp contract |}.

Definition addToContractTotals (contract : Contract.t)
  (new updated : list CharacterRow.t)
  : list CharacterRow.t * list CharacterRow.t :=
  (map (addToChar (asDonation contract)) new,
   map (addToChar (asDonation contract)) updated).

Definition removeFromContractTotals (contract : Contract.t)
  (new updated : list CharacterRow.t)
  : list CharacterRow.t * list CharacterRow.t :=
  (map (removeFromChar (asDonation contract)) new,
   map (removeFromChar (asDonation contract)) updated).
End SpecModel.

(** The rows of a commit whose statement fails: inserts for the new
    characters, then updates for the others. *)
Definition fails (env : Env) (key : Key) (char : CharacterRow.t) : bool :=
  match execFault env key char with
  | Some _ => true
  | None => false
  end.

Definition failedRows (env : Env) (new updated : list CharacterRow.t)
  : list CharacterRow.t :=
  List.filter (fails env StmtCreateCharacter) new ++
  List.filter (fails env StmtUpdateCharacter) updated.

(** The one error that names the characters that failed. *)
Definition aggregateError (failed : list CharacterRow.t) : option string :=
  match failed with
  | [] => None
  | _ :: _ =>
      Some ("failed to save character(s): " ++
            String.concat ", "
              (map (fun char => fmt_d (CharacterRow.ID char)) failed))%string
  end.

(** What a commit leaves in the table for its rows, their IDs being
    pairwise distinct: a new row whose insert succeeded, and an existing row
    whose update succeeded, are stored as committed; under the ID of a row
    whose statement failed the table is as before. *)
Definition committed (env : Env) (new updated : list CharacterRow.t)
  (db db' : Table) : Prop :=
  (forall char, In char new ->
     execFault env StmtCreateCharacter char = None ->
     db' !! CharacterRow.ID char = Some char) /\
  (forall char, In char updated ->
     execFault env StmtUpdateCharacter char = None ->
     is_Some (db !! CharacterRow.ID char) ->
     db' !! CharacterRow.ID char = Some char) /\
  (forall char, In char (failedRows env new updated) ->
     db' !! CharacterRow.ID char = db !! CharacterRow.ID char).

(** The table after a loop of statements with the same key. *)
Definition written (env : Env) (key : Key) (chars : list CharacterRow.t)
  (db : Table) : Table :=
  fold_left (fun db char => snd (executeNamed env key char db)) chars db.

(** ** Sample data *)

(** A character that has donated 0.1 ISK once, and a second donation of
    0.2 ISK by the same character. *)
Definition donation_01 : Donation.t :=
  {| Donation.Donator := 100; Donation.Recipient := 200;
     Donation.Amount := 0.1; Donation.Timestamp := 1000 |}.

Definition donation_02 : Donation.t :=
  {| Donation.Donator := 100; Donation.Recipient := 200;
     Donation.Amount := 0.2; Donation.Timestamp := 2000 |}.

Definition donator_01 : CharacterRow.t :=
  addToChar donation_01 (CharacterRow.fresh 100).

(** A character whose last donation, of 0.3 ISK, is later than the two
    donations above. *)
Definition donation_03 : Donation.t :=
  {| Donation.Donator := 100; Donation.Recipient := 200;
     Donation.Amount := 0.3; Donation.Timestamp := 3000 |}.

Definition donator_03 : CharacterRow.t :=
  addToChar donation_03 (CharacterRow.fresh 100).

(** A donation of a character to itself. *)
Definition self_donation : Donation.t :=
  {| Donation.Donator := 100; Donation.Recipient := 100;
     Donation.Amount := 0.3; Donation.Timestamp := 3000 |}.

(** A store without faults that knows no names. *)
Definition env_ok : Env :=
  {| queryFault := fun _ => None;
     scanFault := fun _ => None;
     GetNames := fun _ => Ok [];
     execFault := fun _ _ => None |}.

(** A store whose lookups time out. *)
Definition env_timeout : Env :=
  {| queryFault := fun _ => Some "timeout";
     scanFault := fun _ => None;
     GetNames := fun _ => Ok [];
     execFault := fun _ _ => None |}.

(** Characters 100 and 200, in corporations 10 and 20, without alliance. *)
Definition affiliation_100 : Affiliation.t :=
  {| Affiliation.Character := {| Name.ID := 100; Name.Name := "a" |};
     Affiliation.Corporation := {| Name.ID := 10; Name.Name := "A" |};
     Affiliation.Alliance := None |}.

Definition affiliation_200 : Affiliation.t :=
  {| Affiliation.Character := {| Name.ID := 200; Name.Name := "b" |};
     Affiliation.Corporation := {| Name.ID := 20; Name.Name := "B" |};
     Affiliation.Alliance := None |}.

Definition affiliations_ab : list Affiliation.t :=
  [affiliation_100; affiliation_200].

(** Character 100 has donated 12.345 ISK; this is what the table holds. *)
Definition donation_12345 : Donation.t :=
  {| Donation.Donator := 100; Donation.Recipient := 200;
     Donation.Amount := 12.345; Donation.Timestamp := 1000 |}.

Definition donator_12345 : CharacterRow.t :=
  addToChar donation_12345 (CharacterRow.fresh 100).

Definition table_12345 : Table := <[100 := donator_12345]> ∅.

(** A further donation of 0.005 ISK by character 100. *)
Definition donation_0005 : Donation.t :=
  {| Donation.Donator := 100; Donation.Recipient := 200;
     Donation.Amount := 0.005; Donation.Timestamp := 2000 |}.

(** A contract between characters 100 and 300 that was not accepted, and
    the same contract once accepted. *)
Definition contract_open : Contract.t :=
  {| Contract.Donator := 100; Contract.Receiver := 300;
     Contract.Accepted := false;
     Contract.Amount := 50; Contract.Timestamp := 4000 |}.

Definition contract_accepted : Contract.t :=
  {| Contract.Donator := 100; Contract.Receiver := 300;
     Contract.Accepted := true;
     Contract.Amount := 50; Contract.Timestamp := 4000 |}.

(** A donation to character 300. *)
Definition donation_to_300 : Donation.t :=
  {| Donation.Donator := 100; Donation.Recipient := 300;
     Donation.Amount := 50; Donation.Timestamp := 4000 |}.

(** A store in which every update of character 200 fails. *)
Definition env_200_fails : Env :=
  {| queryFault := fun _ => None;
     scanFault := fun _ => None;
     GetNames := fun _ => Ok [];
     execFault := fun key char =>
       match key with
       | StmtUpdateCharacter =>
           if CharacterRow.ID char =? 200 then Some "deadlock" else None
       | _ => None
       end |}.

(** Two rows for the commit: character 100 as a new row, character 200 as a
    row of the table. *)
Definition recipient_200 : CharacterRow.t :=
  addToChar donation_01 (CharacterRow.fresh 200).

Definition table_200 : Table := <[200 := CharacterRow.fresh 200]> ∅.

(** The scenario of one donation of 500 ISK from character 100 to character
    200 at [ts], and the two rows that it is to leave. *)
Definition scenario_donation (ts : Time) : Donation.t :=
  {| Donation.Donator := 100; Donation.Recipient := 200;
     Donation.Amount := 500; Donation.Timestamp := ts |}.

Definition scenario_donator (ts : Time) : CharacterRow.t :=
  {| CharacterRow.ID := 100;
     CharacterRow.CorporationID := 10;
     CharacterRow.AllianceID := 0;
     CharacterRow.Received := 0;
     CharacterRow.ReceivedISK := 0;
     CharacterRow.Received30 := 0;
     CharacterRow.ReceivedISK30 := 0;
     CharacterRow.Donated := 1;
     CharacterRow.DonatedISK := 500;
     CharacterRow.Donated30 := 1;
     CharacterRow.DonatedISK30 := 500;
     CharacterRow.LastDonated := {| NullTime.Time := ts; NullTime.Valid := true |};
     CharacterRow.LastReceived := NullTime.zero;
     CharacterRow.GoodStanding := false |}.

Definition scenario_recipient (ts : Time) : CharacterRow.t :=
  {| CharacterRow.ID := 200;
     CharacterRow.CorporationID := 20;
     CharacterRow.AllianceID := 0;
     CharacterRow.Received := 1;
     CharacterRow.ReceivedISK := 500;
     CharacterRow.Received30 := 1;
     CharacterRow.ReceivedISK30 := 500;
     CharacterRow.Donated := 0;
     CharacterRow.DonatedISK := 0;
     CharacterRow.Donated30 := 0;
     CharacterRow.DonatedISK30 := 0;
     CharacterRow.LastDonated := NullTime.zero;
     CharacterRow.LastReceived :=
       {| NullTime.Time := ts; NullTime.Valid := true |};
     CharacterRow.GoodStanding := false |}.

(** ** Specifications of the batch loop *)

(** Every row of the table is stored under its own ID. *)
Definition keyed (db : Table) : Prop :=
  forall id row, db !! id = Some row -> CharacterRow.ID row = id.

(** The characters of a batch in the order in which the loop meets them,
    each once. *)
Definition addOnce (charID : int32) (all : list int32) : list int32 :=
  if inInt32 charID all then all else (all ++ [charID])%list.

Definition participants (donations : list Donation.t) : list int32 :=
  fold_left
    (fun all d => addOnce (Donation.Recipient d) (addOnce (Donation.Donator d) all))
    donations [].

(** The row with which the binder answers for a character, and whether it
    reports the character as new. *)
Definition boundRow (env : Env) (db : Table)
  (affiliations : list Affiliation.t) (charID : int32) : CharacterRow.t :=
  match bindAffiliation env db charID affiliations with
  | Done (row, _) => row
  | Panicked _ => CharacterRow.fresh charID
  end.

Definition isNew (env : Env) (db : Table) (charID : int32) : bool :=
  match GetCharacter env db charID with
  | Err _ => true
  | Ok _ => false
  end.

(** All the events of a batch applied to one row, in order. *)
Definition applyToChar (addition : bool) (d : Donation.t)
  (char : CharacterRow.t) : CharacterRow.t :=
  if addition then addToChar d char else removeFromChar d char.

Definition applyAll (addition : bool) (donations : list Donation.t)
  (char : CharacterRow.t) : CharacterRow.t :=
  fold_left (fun char d => applyToChar addition d char) donations char.

(** The row that a batch is to leave for a character. *)
Definition finalRow (env : Env) (db : Table)
  (affiliations : list Affiliation.t) (addition : bool)
  (donations : list Donation.t) (charID : int32) : CharacterRow.t :=
  applyAll addition donations (boundRow env db affiliations charID).

(** Every participant of every donation has an affiliation. *)
Definition donations_affiliated (affiliations : list Affiliation.t)
  (donations : list Donation.t) : Prop :=
  Forall (fun d =>
            hasAffiliation (Donation.Donator d) affiliations = true /\
            hasAffiliation (Donation.Recipient d) affiliations = true)
    donations.

(** What additive application may change in a row: the counts, the sums
    and the timestamp of the side on which the row takes part, the donator
    side being tested first. *)
Definition added (d : Donation.t) (c c' : CharacterRow.t) : Prop :=
  CharacterRow.ID c' = CharacterRow.ID c /\
  CharacterRow.CorporationID c' = CharacterRow.CorporationID c /\
  CharacterRow.AllianceID c' = CharacterRow.AllianceID c /\
  CharacterRow.GoodStanding c' = CharacterRow.GoodStanding c /\
  if CharacterRow.ID c =? Donation.Donator d then
    CharacterRow.Donated c' = wrap64 (CharacterRow.Donated c + 1) /\
    CharacterRow.Donated30 c' = wrap64 (CharacterRow.Donated30 c + 1) /\
    CharacterRow.DonatedISK c' =
      (CharacterRow.DonatedISK c + Donation.Amount d)%float /\
    CharacterRow.DonatedISK30 c' =
      (CharacterRow.DonatedISK30 c + Donation.Amount d)%float /\
    NullTime.Valid (CharacterRow.LastDonated c') = true /\
    NullTime.Time (CharacterRow.LastDonated c') =
      (if NullTime.Valid (CharacterRow.LastDonated c)
       then Z.max (NullTime.Time (CharacterRow.LastDonated c))
              (Donation.Timestamp d)
       else Donation.Timestamp d) /\
    CharacterRow.Received c' = CharacterRow.Received c /\
    CharacterRow.Received30 c' = CharacterRow.Received30 c /\
    CharacterRow.ReceivedISK c' = CharacterRow.ReceivedISK c /\
    CharacterRow.ReceivedISK30 c' = CharacterRow.ReceivedISK30 c /\
    CharacterRow.LastReceived c' = CharacterRow.LastReceived c
  else if CharacterRow.ID c =? Donation.Recipient d then
    CharacterRow.Received c' = wrap64 (CharacterRow.Received c + 1) /\
    CharacterRow.Received30 c' = wrap64 (CharacterRow.Received30 c + 1) /\
    CharacterRow.ReceivedISK c' =
      (CharacterRow.ReceivedISK c + Donation.Amount d)%float /\
    CharacterRow.ReceivedISK30 c' =
      (CharacterRow.ReceivedISK30 c + Donation.Amount d)%float /\
    NullTime.Valid (CharacterRow.LastReceived c') = true /\
    NullTime.Time (CharacterRow.LastReceived c') =
      (if NullTime.Valid (CharacterRow.LastReceived c)
       then Z.max (NullTime.Time (CharacterRow.LastReceived c))
              (Donation.Timestamp d)
       else Donation.Timestamp d) /\
    CharacterRow.Donated c' = CharacterRow.Donated c /\
    CharacterRow.Donated30 c' = CharacterRow.Donated30 c /\
    CharacterRow.DonatedISK c' = CharacterRow.DonatedISK c /\
    CharacterRow.DonatedISK30 c' = CharacterRow.DonatedISK30 c /\
    CharacterRow.LastDonated c' = CharacterRow.LastDonated c
  else c' = c.

(** Two rows agree on everything but their four monetary sums. *)
Definition same_but_sums (c c' : CharacterRow.t) : Prop :=
  CharacterRow.ID c' = CharacterRow.ID c /\
  CharacterRow.CorporationID c' = CharacterRow.CorporationID c /\
  CharacterRow.AllianceID c' = CharacterRow.AllianceID c /\
  CharacterRow.GoodStanding c' = CharacterRow.GoodStanding c /\
  CharacterRow.Donated c' = CharacterRow.Donated c /\
  CharacterRow.Donated30 c' = CharacterRow.Donated30 c /\
  CharacterRow.Received c' = CharacterRow.Received c /\
  CharacterRow.Received30 c' = CharacterRow.Received30 c /\
  CharacterRow.LastDonated c' = CharacterRow.LastDonated c /\
  CharacterRow.LastReceived c' = CharacterRow.LastReceived c.

(** A timestamp of a row read back through [toCharacter] and [toRow]: the
    stored one when that is valid and not the zero time, and otherwise not
    valid, at the zero time. *)
Definition read_back (last : NullTime.t) : NullTime.t :=
  if NullTime.Valid last && negb (NullTime.Time last =? 0)
  then {| NullTime.Time := NullTime.Time last; NullTime.Valid := true |}
  else {| NullTime.Time := 0; NullTime.Valid := false |}.

(** A timestamp of a row as the table can hold it and give it back: valid
    exactly when it is not the zero time. *)
Definition normal (last : NullTime.t) : Prop :=
  NullTime.Valid last = negb (IsZero (NullTime.Time last)).

(** The three IDs of a character, which the names loop compares with. *)
Definition same_IDs (c c' : Character.t) : Prop :=
  Character.ID c' = Character.ID c /\
  Character.CorporationID c' = Character.CorporationID c /\
  Character.AllianceID c' = Character.AllianceID c.

(** The names that the loop over [names] leaves in a character: the name
    listed for its ID; the name listed for its corporation, unless the
    corporation has the ID of the character; the name listed for its
    alliance, unless the alliance has the ID of the character or of the
    corporation. *)
Definition names_filled (names : list (int32 * string)) (c c' : Character.t)
  : Prop :=
  (forall name, In (Character.ID c, name) names -> Character.Name c' = name) /\
  (forall name,
     In (Character.CorporationID c, name) names ->
     Character.CorporationID c <> Character.ID c ->
     Character.CorporationName c' = name) /\
  (forall name,
     In (Character.AllianceID c, name) names ->
     Character.AllianceID c <> Character.ID c ->
     Character.AllianceID c <> Character.CorporationID c ->
     Character.AllianceName c' = name).

(** What the binder keeps of the row [base] it starts from, and what it
    takes from the affiliation. *)
Definition rebound (aff : Affiliation.t) (base row : CharacterRow.t) : Prop :=
  CharacterRow.CorporationID row = Name.ID (Affiliation.Corporation aff) /\
  CharacterRow.AllianceID row =
    match Affiliation.Alliance aff with
    | Some alliance => Name.ID alliance
    | None => CharacterRow.AllianceID base
    end /\
  CharacterRow.ID row = CharacterRow.ID base /\
  CharacterRow.GoodStanding row = CharacterRow.GoodStanding base /\
  CharacterRow.Donated row = CharacterRow.Donated base /\
  CharacterRow.Donated30 row = CharacterRow.Donated30 base /\
  CharacterRow.Received row = CharacterRow.Received base /\
  CharacterRow.Received30 row = CharacterRow.Received30 base /\
  CharacterRow.DonatedISK row = CharacterRow.DonatedISK base /\
  CharacterRow.DonatedISK30 row = CharacterRow.DonatedISK30 base /\
  CharacterRow.ReceivedISK row = CharacterRow.ReceivedISK base /\
  CharacterRow.ReceivedISK30 row = CharacterRow.ReceivedISK30 base /\
  CharacterRow.LastDonated row = CharacterRow.LastDonated base /\
  CharacterRow.LastReceived row = CharacterRow.LastReceived base.

(** The invariant of the loop of [SaveCharacterDonations] after the events
    [done]: the two slices hold, for the characters met so far and in that
    order, the row of each with the events applied, the new ones in one
    slice and the others in the other; the characters met include every
    participant so far. *)
Definition loop_inv (env : Env) (db : Table)
  (affiliations : list Affiliation.t) (addition : bool)
  (done : list Donation.t) (b : Batch) : Prop :=
  newCharacters b =
    map (finalRow env db affiliations addition done)
      (List.filter (isNew env db) (allCharacters b)) /\
  updatedCharacters b =
    map (finalRow env db affiliations addition done)
      (List.filter (fun id => negb (isNew env db id)) (allCharacters b)) /\
  forall d, In d done ->
    In (Donation.Donator d) (allCharacters b) /\
    In (Donation.Recipient d) (allCharacters b).

(** The number of events of a batch in which a character is the donator,
    and in which it is the recipient without being the donator. *)
Definition donatedIn (charID : int32) (donations : list Donation.t)
  : list Donation.t :=
  List.filter (fun d => charID =? Donation.Donator d) donations.

Definition receivedIn (charID : int32) (donations : list Donation.t)
  : list Donation.t :=
  List.filter
    (fun d => negb (charID =? Donation.Donator d) &&
              (charID =? Donation.Recipient d))
    donations.

(** The amounts of a list of events added to a sum, in order. *)
Definition sumFrom (start : float64) (donations : list Donation.t)
  : float64 :=
  fold_left (fun sum d => (sum + Donation.Amount d)%float) donations start.

Definition lessFrom (start : float64) (donations : list Donation.t)
  : float64 :=
  fold_left (fun sum d => (sum - Donation.Amount d)%float) donations start.

(** The totals of a row after the events of a batch were added to it,
    in terms of the events in which its character takes part. *)
Definition totals_added (donations : list Donation.t)
  (c c' : CharacterRow.t) : Prop :=
  let donated := donatedIn (CharacterRow.ID c) donations in
  let received := receivedIn (CharacterRow.ID c) donations in
  CharacterRow.Donated c' =
    wrap64 (CharacterRow.Donated c + Z.of_nat (length donated)) /\
  CharacterRow.Donated30 c' =
    wrap64 (CharacterRow.Donated30 c + Z.of_nat (length donated)) /\
  CharacterRow.Received c' =
    wrap64 (CharacterRow.Received c + Z.of_nat (length received)) /\
  CharacterRow.Received30 c' =
    wrap64 (CharacterRow.Received30 c + Z.of_nat (length received)) /\
  CharacterRow.DonatedISK c' = sumFrom (CharacterRow.DonatedISK c) donated /\
  CharacterRow.DonatedISK30 c' =
    sumFrom (CharacterRow.DonatedISK30 c) donated /\
  CharacterRow.ReceivedISK c' =
    sumFrom (CharacterRow.ReceivedISK c) received /\
  CharacterRow.ReceivedISK30 c' =
    sumFrom (CharacterRow.ReceivedISK30 c) received.

(** The totals of a row after the events of a batch were removed from it. *)
Definition totals_removed (donations : list Donation.t)
  (c c' : CharacterRow.t) : Prop :=
  let donated := donatedIn (CharacterRow.ID c) donations in
  let received := receivedIn (CharacterRow.ID c) donations in
  CharacterRow.Donated30 c' =
    wrap64 (CharacterRow.Donated30 c - Z.of_nat (length donated)) /\
  CharacterRow.Received30 c' =
    wrap64 (CharacterRow.Received30 c - Z.of_nat (length received)) /\
  CharacterRow.DonatedISK30 c' =
    lessFrom (CharacterRow.DonatedISK30 c) donated /\
  CharacterRow.ReceivedISK30 c' =
    lessFrom (CharacterRow.ReceivedISK30 c) received /\
  same_lifetime c c'.

(** The last donation of a row after the events of a batch were added to
    it: it is valid and not before any donation of its character in the
    batch, not before the stored one when that was valid, and it is the
    stored one or the time of one of those donations. *)
Definition latest_donation (donations : list Donation.t)
  (c c' : CharacterRow.t) : Prop :=
  let donated := donatedIn (CharacterRow.ID c) donations in
  let last := CharacterRow.LastDonated c in
  let last' := CharacterRow.LastDonated c' in
  (forall d, In d donated ->
     NullTime.Valid last' = true /\
     Donation.Timestamp d <= NullTime.Time last') /\
  (NullTime.Valid last = true ->
     NullTime.Valid last' = true /\
     NullTime.Time last <= NullTime.Time last') /\
  (last' = last \/
   exists d, In d donated /\
     last' = {| NullTime.Time := Donation.Timestamp d;
                NullTime.Valid := true |}).

(** ** Further sample data *)

(** The batch that the loop leaves for the donation of 0.005 ISK over the
    table that holds character 100. *)
Definition batch_0005 : Batch :=
  match donationLoop env_ok table_12345 [donation_0005] affiliations_ab true
  with
  | Done b => b
  | Panicked _ => emptyBatch
  end.

(** * Properties *)

(** Two floats that differ have different decodings. *)
Ltac float_discriminate H :=
  apply (f_equal Prim2SF) in H; vm_compute in H; discriminate H.

(** ** 64-bit counters *)

Lemma wrap64_small (z : Z) : is_int64 z -> wrap64 z = z.
Proof.
  unfold is_int64, wrap64. intros H.
  rewrite Z.mod_small by lia. lia.
Qed.

Lemma wrap64_is_int64 (z : Z) : is_int64 (wrap64 z).
Proof.
  unfold is_int64, wrap64.
  pose proof (Z.mod_pos_bound (z + 2 ^ 63) (2 ^ 64)). lia.
Qed.

(** [x++] followed by [x--] gives [x] back, also across the overflow. *)
Lemma wrap64_succ_pred (z : Z) : is_int64 z -> wrap64 (wrap64 (z + 1) - 1) = z.
Proof.
  intros H. unfold wrap64 at 1 2.
  replace ((z + 1 + 2 ^ 63) mod 2 ^ 64 - 2 ^ 63 - 1 + 2 ^ 63)
    with ((z + 1 + 2 ^ 63) mod 2 ^ 64 - 1) by lia.
  rewrite Zminus_mod_idemp_l.
  replace (z + 1 + 2 ^ 63 - 1) with (z + 2 ^ 63) by lia.
  apply wrap64_small in H. exact H.
Qed.

(** ** The accumulator, row by row *)

Lemma addToChar_ID (d : Donation.t) (c : CharacterRow.t) :
  CharacterRow.ID (addToChar d c) = CharacterRow.ID c.
Proof.
  unfold addToChar.
  destruct (CharacterRow.ID c =? Donation.Donator d); [reflexivity|].
  destruct (CharacterRow.ID c =? Donation.Recipient d); reflexivity.
Qed.

Lemma removeFromChar_ID (d : Donation.t) (c : CharacterRow.t) :
  CharacterRow.ID (removeFromChar d c) = CharacterRow.ID c.
Proof.
  unfold removeFromChar.
  destruct (CharacterRow.ID c =? Donation.Donator d); [reflexivity|].
  destruct (CharacterRow.ID c =? Donation.Recipient d); reflexivity.
Qed.

(** Lifting a relation between a row and its image to the slices. *)
Lemma Forall2_map_rows (R : CharacterRow.t -> CharacterRow.t -> Prop)
  (P : CharacterRow.t -> Prop) (f : CharacterRow.t -> CharacterRow.t)
  (characters : list (list CharacterRow.t)) :
  (forall c, P c -> R c (f c)) ->
  Forall (Forall P) characters ->
  Forall2 (Forall2 R) characters (map (map f) characters).
Proof.
  intros HR. induction 1 as [|chars rest Hchars _ IH]; simpl.
  - constructor.
  - constructor; [|exact IH].
    induction Hchars as [|c cs Hc _ IHcs]; simpl; constructor; auto.
Qed.

Lemma Forall2_rows_head (R : CharacterRow.t -> CharacterRow.t -> Prop)
  (c c' : CharacterRow.t) (chars chars' : list CharacterRow.t)
  (rest rest' : list (list CharacterRow.t)) :
  Forall2 (Forall2 R) ((c :: chars) :: rest) ((c' :: chars') :: rest') ->
  R c c'.
Proof.
  intros H. inversion H as [|? ? ? ? Hrow _]; subst.
  inversion Hrow; subst. assumption.
Qed.

Lemma Forall_Forall_True (characters : list (list CharacterRow.t)) :
  Forall (Forall (fun _ => True)) characters.
Proof.
  induction characters as [|chars rest IH]; constructor; [|exact IH].
  induction chars; constructor; auto.
Qed.

Lemma removeFromChar_removed (d : Donation.t) (c : CharacterRow.t) :
  removed d c (removeFromChar d c).
Proof.
  unfold removed, removeFromChar.
  destruct (CharacterRow.ID c =? Donation.Donator d).
  - simpl. repeat split.
  - destruct (CharacterRow.ID c =? Donation.Recipient d); simpl; repeat split.
Qed.

(** C3. Subtractive application keeps the shape of the slices and, in every
    row, changes nothing but the 30-day count (one less, as an [int64]) and
    the 30-day value (less the amount, as a [float64]) of the side on which
    the row takes part; the lifetime totals, both timestamps, the
    affiliation and the standing flag are as before, and a row that takes no
    part is untouched. *)
Theorem removeFromTotals_frame (d : Donation.t)
  (characters : list (list CharacterRow.t)) :
  Forall2 (Forall2 (removed d)) characters (removeFromTotals d characters).
Proof.
  unfold removeFromTotals.
  apply Forall2_map_rows with (P := fun _ => True).
  - intros c _. apply removeFromChar_removed.
  - apply Forall_Forall_True.
Qed.

Lemma add_then_remove_char (d : Donation.t) (c : CharacterRow.t) :
  CharacterRow.wf c ->
  added_then_removed d c (removeFromChar d (addToChar d c)).
Proof.
  intros (H1 & H2 & H3 & H4).
  unfold added_then_removed, same_lifetime, removeFromChar.
  rewrite addToChar_ID. unfold addToChar.
  destruct (CharacterRow.ID c =? Donation.Donator d).
  - simpl. rewrite wrap64_succ_pred by assumption. repeat split.
  - destruct (CharacterRow.ID c =? Donation.Recipient d); simpl.
    + rewrite wrap64_succ_pred by assumption. repeat split.
    + repeat split.
Qed.

(** C2, as the spec states it, fails: a character with 0.1 ISK in the 30-day
    window donates 0.2 ISK; once that donation is added and removed again,
    the window holds 0.10000000000000003 ISK. *)
Lemma add_then_remove_not_exact :
  ~ Forall2 (Forall2 window_restored) [[donator_01]; []]
      (removeFromTotals donation_02 (addToTotals donation_02 [[donator_01]; []])).
Proof.
  intros H. inversion H as [|? ? ? ? Hrow _]; subst.
  inversion Hrow as [|? ? ? ? (_ & Hisk & _) _]; subst.
  float_discriminate Hisk.
Qed.

(** C2, amended. An event that is added and then removed leaves, in every
    row with 64-bit counters, the two 30-day counts exactly as they were and
    each 30-day value as ((value + amount) - amount) in [float64] arithmetic
    on the side on which the row takes part (untouched on the other side);
    the lifetime totals and the timestamps are those left by the addition. *)
Theorem add_then_remove_totals (d : Donation.t)
  (characters : list (list CharacterRow.t)) :
  Forall (Forall CharacterRow.wf) characters ->
  Forall2 (Forall2 (added_then_removed d)) characters
    (removeFromTotals d (addToTotals d characters)).
Proof.
  intros Hwf. unfold removeFromTotals, addToTotals.
  rewrite map_map.
  rewrite (map_ext _ (map (fun c => removeFromChar d (addToChar d c))))
    by (intros chars; apply map_map).
  apply Forall2_map_rows with (P := CharacterRow.wf); [|exact Hwf].
  intros c Hc. apply add_then_remove_char, Hc.
Qed.

Lemma add_then_remove_totals_witness :
  Forall2 (Forall2 (added_then_removed donation_02)) [[donator_01]; []]
    (removeFromTotals donation_02 (addToTotals donation_02 [[donator_01]; []])).
Proof.
  apply (add_then_remove_totals donation_02 [[donator_01]; []]).
  repeat constructor; vm_compute; intros; discriminate.
Defined.

(** ** Timestamps *)

Lemma advance_valid (last : NullTime.t) (ts : Time) :
  NullTime.Valid (advance last ts) = true /\
  NullTime.Time (advance last ts) =
    (if NullTime.Valid last then Z.max (NullTime.Time last) ts else ts).
Proof.
  destruct last as [t v]. unfold advance, Before. simpl.
  destruct v; simpl.
  - destruct (Z.ltb_spec t ts); simpl; split; try reflexivity; lia.
  - split; reflexivity.
Qed.

Lemma advance_later (last : NullTime.t) (t1 t2 : Time) :
  t1 < t2 -> not_after last t2 ->
  advance (advance last t1) t2 = {| NullTime.Time := t2; NullTime.Valid := true |}
  /\ advance (advance last t2) t1 = {| NullTime.Time := t2; NullTime.Valid := true |}.
Proof.
  intros Hlt Hlast. unfold not_after in Hlast.
  destruct last as [t v]. unfold advance, Before. simpl in *.
  destruct v; simpl.
  - specialize (Hlast eq_refl).
    destruct (Z.ltb_spec t t1), (Z.ltb_spec t t2); simpl;
      repeat match goal with
        | |- context [?a <? ?b] => destruct (Z.ltb_spec a b); simpl
        end;
      split; first [reflexivity | lia | f_equal; lia].
  - destruct (Z.ltb_spec t1 t2), (Z.ltb_spec t2 t1); simpl;
      split; first [reflexivity | lia].
Qed.

Lemma addToChar_LastDonated (d : Donation.t) (c : CharacterRow.t) :
  CharacterRow.ID c = Donation.Donator d ->
  CharacterRow.LastDonated (addToChar d c) =
    advance (CharacterRow.LastDonated c) (Donation.Timestamp d).
Proof.
  intros H. unfold addToChar. rewrite H, Z.eqb_refl. reflexivity.
Qed.

(** C7, as the spec states it, fails: the row of character 100 has a last
    donation at 3000; two donations by that character at 1000 and at 2000
    are added, and the last donation is still the one at 3000. *)
Lemma lastDonated_not_T2 :
  CharacterRow.ID donator_03 = Donation.Donator donation_01 /\
  CharacterRow.ID donator_03 = Donation.Donator donation_02 /\
  Donation.Timestamp donation_01 < Donation.Timestamp donation_02 /\
  CharacterRow.LastDonated
    (addToChar donation_02 (addToChar donation_01 donator_03))
  <> {| NullTime.Time := Donation.Timestamp donation_02;
        NullTime.Valid := true |}.
Proof.
  repeat split; try reflexivity.
  vm_compute. intros H. discriminate H.
Qed.

(** C7, amended. Two donations by the same donator, at T1 < T2, are added in
    either order: in every row of that donator whose stored last donation is
    absent or not later than T2, the last donation is T2 afterwards. *)
Theorem lastDonated_latest (d1 d2 : Donation.t)
  (characters : list (list CharacterRow.t)) :
  Donation.Donator d1 = Donation.Donator d2 ->
  Donation.Timestamp d1 < Donation.Timestamp d2 ->
  Forall2 (Forall2 (lastDonated_is d1 (Donation.Timestamp d2))) characters
    (addToTotals d2 (addToTotals d1 characters)) /\
  Forall2 (Forall2 (lastDonated_is d1 (Donation.Timestamp d2))) characters
    (addToTotals d1 (addToTotals d2 characters)).
Proof.
  intros Hsame Hlt. unfold addToTotals. rewrite !map_map.
  rewrite (map_ext _ (map (fun c => addToChar d2 (addToChar d1 c))))
    by (intros chars; apply map_map).
  rewrite (map_ext (fun _ => map _ (map _ _))
             (map (fun c => addToChar d1 (addToChar d2 c))))
    by (intros chars; apply map_map).
  split; apply Forall2_map_rows with (P := fun _ => True);
    try apply Forall_Forall_True;
    intros c _ Hid Hlast;
    rewrite !addToChar_LastDonated
      by (rewrite ?addToChar_ID; congruence);
    apply advance_later; assumption.
Qed.

Lemma lastDonated_latest_witness :
  CharacterRow.LastDonated
    (addToChar donation_02 (addToChar donation_01 donator_01)) =
    {| NullTime.Time := 2000; NullTime.Valid := true |} /\
  CharacterRow.LastDonated
    (addToChar donation_01 (addToChar donation_02 donator_01)) =
    {| NullTime.Time := 2000; NullTime.Valid := true |}.
Proof.
  destruct (lastDonated_latest donation_01 donation_02 [[donator_01]; []]
              eq_refl eq_refl) as [H12 H21].
  split.
  - apply (Forall2_rows_head _ _ _ _ _ _ _ H12); [reflexivity|].
    intros _. vm_compute. discriminate.
  - apply (Forall2_rows_head _ _ _ _ _ _ _ H21); [reflexivity|].
    intros _. vm_compute. discriminate.
Defined.

(** ** Self-donations *)

Lemma inInt32_app (x : int32) (xs : list int32) :
  inInt32 x (xs ++ [x]) = true.
Proof.
  unfold inInt32. rewrite existsb_app. simpl.
  rewrite Z.eqb_refl, orb_true_r. reflexivity.
Qed.

(** A character that was just bound is known to the batch. *)
Lemma bindCharacter_known (env : Env) (db : Table)
  (affiliations : list Affiliation.t) (b b' : Batch) (charID : int32) :
  bindCharacter env db affiliations b charID = Done b' ->
  inInt32 charID (allCharacters b') = true.
Proof.
  unfold bindCharacter.
  destruct (inInt32 charID (allCharacters b)) eqn:Hin.
  - intros [= <-]. exact Hin.
  - destruct (bindAffiliation env db charID affiliations) as [[char new]|v];
      simpl; [|discriminate].
    destruct new; intros [= <-]; simpl; apply inInt32_app.
Qed.

(** C9. A donation of a character to itself, added to the totals, updates
    the donated side of the row of that character and nothing else of it:
    both donated counts are one more, both donated sums the amount more, and
    the last donation is valid and the later of the stored one and the
    event; the received counts and sums, the last reception, the ID, the
    affiliation and the standing flag are as they were. Every other row is
    untouched. In the batch the character is bound once: the turn for the
    recipient finds it known. *)
Theorem self_donation_donated_only (d : Donation.t)
  (characters : list (list CharacterRow.t)) :
  Donation.Donator d = Donation.Recipient d ->
  Forall2 (Forall2 (self_donated d)) characters (addToTotals d characters) /\
  forall env db affiliations addition b,
    donationStep env db affiliations addition b d =
      (b' ← bindCharacter env db affiliations b (Donation.Donator d);
       Done (applyDonation addition d b')).
Proof.
  intros Hself. split.
  - unfold addToTotals.
    apply Forall2_map_rows with (P := fun _ => True);
      [|apply Forall_Forall_True].
    intros c _. unfold self_donated, addToChar. rewrite <- Hself.
    destruct (CharacterRow.ID c =? Donation.Donator d); simpl.
    + destruct (advance_valid (CharacterRow.LastDonated c)
                  (Donation.Timestamp d)) as [Hvalid Htime].
      rewrite Hvalid, Htime. repeat split.
    + reflexivity.
  - intros env db affiliations addition b. unfold donationStep.
    rewrite <- Hself.
    destruct (bindCharacter env db affiliations b (Donation.Donator d))
      as [b'|v] eqn:Hbind; simpl; [|reflexivity].
    apply bindCharacter_known in Hbind.
    unfold bindCharacter at 1. rewrite Hbind. reflexivity.
Qed.

Lemma self_donation_donated_only_witness :
  Forall2 (Forall2 (self_donated self_donation)) [[donator_01]; []]
    (addToTotals self_donation [[donator_01]; []]) /\
  forall env db affiliations addition b,
    donationStep env db affiliations addition b self_donation =
      (b' ← bindCharacter env db affiliations b
              (Donation.Donator self_donation);
       Done (applyDonation addition self_donation b')).
Proof.
  apply (self_donation_donated_only self_donation [[donator_01]; []]).
  reflexivity.
Defined.

(** ** Loading and binding *)

Lemma toRow_fillName (char : Character.t) (entry : int32 * string) :
  toRow (fillName char entry) = toRow char.
Proof.
  destruct entry as [id name]. unfold fillName.
  destruct (id =? Character.ID char); [reflexivity|].
  destruct (id =? Character.CorporationID char); [reflexivity|].
  destruct (id =? Character.AllianceID char); reflexivity.
Qed.

Lemma toRow_fold_fillName (names : list (int32 * string)) (char : Character.t) :
  toRow (fold_left fillName names char) = toRow char.
Proof.
  revert char. induction names as [|entry names IH]; intros char; simpl.
  - reflexivity.
  - rewrite IH. apply toRow_fillName.
Qed.

(** A character that loads is a row of the table under that ID, seen
    through [toCharacter]. *)
Lemma GetCharacter_Ok (env : Env) (db : Table) (charID : int32)
  (char : Character.t) :
  GetCharacter env db charID = Ok char ->
  exists stored,
    db !! charID = Some stored /\ toRow char = toRow (toCharacter stored).
Proof.
  unfold GetCharacter, queryNamedResult, scanCharacterRow, scan,
    getCharacterNames.
  destruct (queryFault env charID); [discriminate|].
  destruct (db !! charID) as [stored|].
  - destruct (scanFault env [stored]); [discriminate|].
    destruct (GetNames env _) as [names|e]; [|discriminate].
    intros [= <-]. exists stored. split; [reflexivity|].
    apply toRow_fold_fillName.
  - destruct (scanFault env []); discriminate.
Qed.

(** The four ways in which a load fails: the query, the scan, no row, the
    names. *)
Lemma GetCharacter_query_fault (env : Env) (db : Table) (charID : int32)
  (e : string) :
  queryFault env charID = Some e -> GetCharacter env db charID = Err e.
Proof.
  intros H. unfold GetCharacter, queryNamedResult. rewrite H. reflexivity.
Qed.

Lemma GetCharacter_scan_fault (env : Env) (db : Table) (charID : int32)
  (stored : CharacterRow.t) (e : string) :
  queryFault env charID = None ->
  db !! charID = Some stored ->
  scanFault env [stored] = Some e ->
  GetCharacter env db charID = Err e.
Proof.
  intros Hq Hdb Hs.
  unfold GetCharacter, queryNamedResult, scanCharacterRow, scan.
  rewrite Hq, Hdb, Hs. reflexivity.
Qed.

Lemma GetCharacter_names_fault (env : Env) (db : Table) (charID : int32)
  (stored : CharacterRow.t) (e : string) :
  queryFault env charID = None ->
  db !! charID = Some stored ->
  scanFault env [stored] = None ->
  (forall ids, GetNames env ids = Err e) ->
  GetCharacter env db charID = Err e.
Proof.
  intros Hq Hdb Hs Hn.
  unfold GetCharacter, queryNamedResult, scanCharacterRow, scan,
    getCharacterNames.
  rewrite Hq, Hdb, Hs, Hn. reflexivity.
Qed.

Lemma GetCharacter_not_found (env : Env) (db : Table) (charID : int32) :
  db !! charID = None -> exists e, GetCharacter env db charID = Err e.
Proof.
  intros H. unfold GetCharacter, queryNamedResult, scanCharacterRow, scan.
  destruct (queryFault env charID) as [e|]; [eauto|].
  rewrite H. destruct (scanFault env []) as [e|]; eauto.
Qed.

Lemma bindAffiliation_unfold (env : Env) (db : Table) (charID : int32)
  (affiliations : list Affiliation.t) (aff : Affiliation.t) :
  getAffiliation charID affiliations = Done aff ->
  bindAffiliation env db charID affiliations =
    match GetCharacter env db charID with
    | Err _ => Done (affiliated aff (CharacterRow.fresh charID), true)
    | Ok char => Done (affiliated aff (toRow char), false)
    end.
Proof.
  intros H. unfold bindAffiliation. rewrite H. simpl.
  destruct (GetCharacter env db charID); reflexivity.
Qed.

Lemma affiliated_sums (aff : Affiliation.t) (row : CharacterRow.t) :
  CharacterRow.ReceivedISK (affiliated aff row) = CharacterRow.ReceivedISK row /\
  CharacterRow.ReceivedISK30 (affiliated aff row) =
    CharacterRow.ReceivedISK30 row /\
  CharacterRow.DonatedISK (affiliated aff row) = CharacterRow.DonatedISK row /\
  CharacterRow.DonatedISK30 (affiliated aff row) =
    CharacterRow.DonatedISK30 row.
Proof.
  unfold affiliated. destruct (Affiliation.Alliance aff); repeat split.
Qed.

(** Binding a character whose load fails. *)
Lemma bindAffiliation_load_failure (env : Env) (db : Table) (charID : int32)
  (affiliations : list Affiliation.t) (aff : Affiliation.t) (e : string) :
  getAffiliation charID affiliations = Done aff ->
  GetCharacter env db charID = Err e ->
  bindAffiliation env db charID affiliations =
    Done (affiliated aff (CharacterRow.fresh charID), true).
Proof.
  intros Haff Hload.
  rewrite (bindAffiliation_unfold _ _ _ _ _ Haff), Hload. reflexivity.
Qed.

Lemma bindCharacter_load_failure (env : Env) (db : Table) (charID : int32)
  (affiliations : list Affiliation.t) (aff : Affiliation.t) (e : string)
  (b : Batch) :
  getAffiliation charID affiliations = Done aff ->
  GetCharacter env db charID = Err e ->
  inInt32 charID (allCharacters b) = false ->
  bindCharacter env db affiliations b charID =
    Done {| newCharacters :=
              newCharacters b ++ [affiliated aff (CharacterRow.fresh charID)];
            updatedCharacters := updatedCharacters b;
            allCharacters := allCharacters b ++ [charID] |}.
Proof.
  intros Haff Hload Hnew. unfold bindCharacter.
  rewrite Hnew, (bindAffiliation_load_failure _ _ _ _ _ _ Haff Hload).
  reflexivity.
Qed.

(** C10. Whatever the error with which the load of a character fails, the
    binder answers with a zero-valued row that carries the ID and the
    affiliation, and reports the character as new; in a batch that does not
    know the character yet, that row joins the new characters, those that
    the commit inserts. *)
Theorem load_failure_is_new (env : Env) (db : Table) (charID : int32)
  (affiliations : list Affiliation.t) (aff : Affiliation.t) (e : string)
  (b : Batch) :
  getAffiliation charID affiliations = Done aff ->
  GetCharacter env db charID = Err e ->
  inInt32 charID (allCharacters b) = false ->
  bindAffiliation env db charID affiliations =
    Done (affiliated aff (CharacterRow.fresh charID), true) /\
  bindCharacter env db affiliations b charID =
    Done {| newCharacters :=
              newCharacters b ++ [affiliated aff (CharacterRow.fresh charID)];
            updatedCharacters := updatedCharacters b;
            allCharacters := allCharacters b ++ [charID] |}.
Proof.
  intros Haff Hload Hnew. split.
  - exact (bindAffiliation_load_failure _ _ _ _ _ _ Haff Hload).
  - exact (bindCharacter_load_failure _ _ _ _ _ _ _ Haff Hload Hnew).
Qed.

(** The row of character 100 is in the table, the lookup times out. *)
Lemma load_failure_is_new_witness :
  table_12345 !! 100 = Some donator_12345 /\
  bindAffiliation env_timeout table_12345 100 affiliations_ab =
    Done (affiliated affiliation_100 (CharacterRow.fresh 100), true)
  /\
  bindCharacter env_timeout table_12345 affiliations_ab emptyBatch 100 =
    Done {| newCharacters :=
              [affiliated affiliation_100 (CharacterRow.fresh 100)];
            updatedCharacters := [];
            allCharacters := [100] |}.
Proof.
  split; [reflexivity|].
  apply (load_failure_is_new env_timeout table_12345 100 affiliations_ab
           affiliation_100 "timeout" emptyBatch);
    reflexivity.
Defined.

(** ** Rounding *)

(** C1, as the spec states it, fails. The table holds 12.345 ISK donated by
    character 100. The binder hands out the row with 12.35 ISK, the sum as
    [toCharacter] rounded it; a donation of 0.005 ISK is added to that, and
    the commit stores 12.355 ISK, where 12.345 + 0.005 is
    12.350000000000001. *)
Lemma rounding_feeds_back :
  CharacterRow.DonatedISK <$> table_12345 !! 100 = Some 12.345%float /\
  (exists row,
     bindAffiliation env_ok table_12345 100 affiliations_ab = Done (row, false)
     /\ CharacterRow.DonatedISK row = 12.35%float) /\
  (let '(out, db) :=
     SaveCharacterDonations env_ok table_12345 [donation_0005]
       affiliations_ab true in
   out = Done None /\
   CharacterRow.DonatedISK <$> db !! 100 = Some 12.355%float) /\
  (12.345 + 0.005)%float <> 12.355%float.
Proof.
  split; [reflexivity|]. split; [|split].
  - eexists. split; vm_compute; reflexivity.
  - vm_compute. split; reflexivity.
  - intros H. float_discriminate H.
Qed.

Lemma toRow_toCharacter_sums (stored : CharacterRow.t) :
  sums_rounded stored (toRow (toCharacter stored)).
Proof. repeat split. Qed.

(** C1, amended. The monetary sums are rounded to 2 decimal places by the
    read-facing projection [toCharacter], and the accumulator adds the
    amount to the sums of the row it is given without rounding: adding or
    removing an event, in any row of any slice, leaves each of the four sums
    either as it was or as the [float64] sum or difference of what it was
    and the amount. The row that
    the binder gives it starts from zero for a new character; for an
    existing character it is loaded through that projection, so that its
    four sums are the stored sums rounded to 2 decimal places. *)
Theorem rounding_on_projection_and_load (env : Env) (db : Table)
  (charID : int32) (affiliations : list Affiliation.t)
  (row : CharacterRow.t) (new : bool) :
  bindAffiliation env db charID affiliations = Done (row, new) ->
  (if new then sums_zero row
   else exists stored, db !! charID = Some stored /\ sums_rounded stored row)
  /\ (forall c, projection_rounds c)
  /\ accumulates_unrounded.
Proof.
  intros Hbind. split; [|split].
  - destruct (getAffiliation charID affiliations) as [aff|v] eqn:Haff.
    + rewrite (bindAffiliation_unfold _ _ _ _ _ Haff) in Hbind.
      destruct (GetCharacter env db charID) as [char|e] eqn:Hload.
      * injection Hbind as <- <-.
        destruct (GetCharacter_Ok _ _ _ _ Hload) as (stored & Hdb & Hrow).
        exists stored. split; [exact Hdb|].
        unfold sums_rounded.
        destruct (affiliated_sums aff (toRow char)) as (-> & -> & -> & ->).
        rewrite Hrow. apply toRow_toCharacter_sums.
      * injection Hbind as <- <-.
        unfold sums_zero.
        destruct (affiliated_sums aff (CharacterRow.fresh charID))
          as (-> & -> & -> & ->).
        repeat split.
    + unfold bindAffiliation in Hbind. rewrite Haff in Hbind. discriminate.
  - intros c. repeat split.
  - intros d characters. unfold addToTotals, removeFromTotals.
    split; apply Forall2_map_rows with (P := fun _ => True);
      try apply Forall_Forall_True; intros c _.
    + unfold sums_added, addToChar.
      destruct (CharacterRow.ID c =? Donation.Donator d);
        [|destruct (CharacterRow.ID c =? Donation.Recipient d)];
        simpl; repeat split.
    + unfold sums_removed, removeFromChar.
      destruct (CharacterRow.ID c =? Donation.Donator d);
        [|destruct (CharacterRow.ID c =? Donation.Recipient d)];
        simpl; repeat split.
Qed.

Lemma rounding_on_projection_and_load_witness :
  (exists stored,
     table_12345 !! 100 = Some stored /\
     sums_rounded stored
       (affiliated affiliation_100 (toRow (toCharacter donator_12345))))
  /\ (forall c, projection_rounds c)
  /\ accumulates_unrounded.
Proof.
  apply (rounding_on_projection_and_load env_ok table_12345 100
           affiliations_ab
           (affiliated affiliation_100 (toRow (toCharacter donator_12345)))
           false).
  reflexivity.
Defined.

(** ** Missing affiliations *)

Lemma getAffiliation_missing (charID : int32)
  (affiliations : list Affiliation.t) :
  hasAffiliation charID affiliations = false ->
  getAffiliation charID affiliations = Panicked (noAffiliation charID).
Proof.
  unfold hasAffiliation.
  induction affiliations as [|aff rest IH]; simpl; intros H.
  - reflexivity.
  - apply orb_false_iff in H as [Hhd Htl]. rewrite Hhd. apply IH, Htl.
Qed.

Lemma getAffiliation_present (charID : int32)
  (affiliations : list Affiliation.t) :
  hasAffiliation charID affiliations = true ->
  exists aff, getAffiliation charID affiliations = Done aff.
Proof.
  unfold hasAffiliation.
  induction affiliations as [|a rest IH]; simpl; [discriminate|].
  destruct (Name.ID (Affiliation.Character a) =? charID); simpl; eauto.
Qed.

Lemma inInt32_snoc (x y : int32) (xs : list int32) :
  inInt32 x (xs ++ [y]) = true -> inInt32 x xs = true \/ x = y.
Proof.
  unfold inInt32. rewrite existsb_app. simpl. rewrite orb_false_r.
  intros H. apply orb_true_iff in H as [H|H]; [left; exact H|].
  right. apply Z.eqb_eq, H.
Qed.

(** What one turn of the loop over the participants does, as to
    affiliations: it panics exactly when the character is not known yet and
    has no affiliation. *)
Lemma bindCharacter_affiliated (env : Env) (db : Table)
  (affiliations : list Affiliation.t) (b : Batch) (charID : int32) :
  all_affiliated affiliations b ->
  match bindCharacter env db affiliations b charID with
  | Done b' =>
      all_affiliated affiliations b' /\
      hasAffiliation charID affiliations = true
  | Panicked v =>
      hasAffiliation charID affiliations = false /\ v = noAffiliation charID
  end.
Proof.
  intros Hb. unfold bindCharacter.
  destruct (inInt32 charID (allCharacters b)) eqn:Hin.
  - split; [exact Hb|]. apply Hb, Hin.
  - unfold bindAffiliation.
    destruct (hasAffiliation charID affiliations) eqn:Haff.
    + destruct (getAffiliation_present _ _ Haff) as [aff ->]. simpl.
      assert (Hall : forall id,
                 inInt32 id (allCharacters b ++ [charID]) = true ->
                 hasAffiliation id affiliations = true).
      { intros id Hid. apply inInt32_snoc in Hid as [Hid| ->]; auto. }
      destruct (GetCharacter env db charID); simpl; split; auto.
    + rewrite (getAffiliation_missing _ _ Haff). simpl. split; reflexivity.
Qed.

(** A loop with an invariant [I]: when every turn on an element that is
    [bad] panics with a value in [Q], and every turn that panics at all
    panics with a value in [Q], a list with a bad element makes the loop
    panic with a value in [Q]. *)
Lemma forEach_panics {A S : Type} (body : S -> A -> Outcome S)
  (I : S -> Prop) (bad : A -> Prop) (Q : string -> Prop) :
  (forall s x, I s ->
     match body s x with
     | Done s' => I s' /\ ~ bad x
     | Panicked v => Q v
     end) ->
  forall xs s, I s -> Exists bad xs ->
  exists v, Q v /\ forEach body xs s = Panicked v.
Proof.
  intros Hbody xs. induction xs as [|x rest IH]; intros s Hs Hbad.
  - inversion Hbad.
  - simpl. specialize (Hbody s x Hs).
    destruct (body s x) as [s'|v]; simpl.
    + destruct Hbody as [Hs' Hx].
      apply IH; [exact Hs'|].
      inversion Hbad; subst; [contradiction|assumption].
    + exists v. split; [exact Hbody|reflexivity].
Qed.

Lemma emptyBatch_affiliated (affiliations : list Affiliation.t) :
  all_affiliated affiliations emptyBatch.
Proof. intros charID H. discriminate H. Qed.

Lemma donationStep_affiliated (env : Env) (db : Table)
  (affiliations : list Affiliation.t) (addition : bool) (b : Batch)
  (d : Donation.t) :
  all_affiliated affiliations b ->
  match donationStep env db affiliations addition b d with
  | Done b' =>
      all_affiliated affiliations b' /\ ~ donation_unaffiliated affiliations d
  | Panicked v => unaffiliated_panic affiliations v
  end.
Proof.
  intros Hb. unfold donationStep.
  pose proof (bindCharacter_affiliated env db affiliations b
                (Donation.Donator d) Hb) as H1.
  destruct (bindCharacter env db affiliations b (Donation.Donator d))
    as [b1|v]; simpl.
  - destruct H1 as [Hb1 Hdon].
    pose proof (bindCharacter_affiliated env db affiliations b1
                  (Donation.Recipient d) Hb1) as H2.
    destruct (bindCharacter env db affiliations b1 (Donation.Recipient d))
      as [b2|v]; simpl.
    + destruct H2 as [Hb2 Hrec]. split.
      * intros charID Hin. apply Hb2.
        destruct addition; exact Hin.
      * intros [H|H]; congruence.
    + destruct H2 as [H ->]. eexists; eauto.
  - destruct H1 as [H ->]. eexists; eauto.
Qed.

Lemma contractStep_affiliated
  (addTotals removeTotals :
     Contract.t -> list CharacterRow.t -> list CharacterRow.t ->
     list CharacterRow.t * list CharacterRow.t)
  (env : Env) (db : Table)
  (affiliations : list Affiliation.t) (addition : bool) (b : Batch)
  (c : Contract.t) :
  all_affiliated affiliations b ->
  match contractStep addTotals removeTotals env db affiliations addition b c
  with
  | Done b' =>
      all_affiliated affiliations b' /\
      ~ (Contract.Accepted c = true /\ contract_unaffiliated affiliations c)
  | Panicked v => unaffiliated_panic affiliations v
  end.
Proof.
  intros Hb. unfold contractStep.
  destruct (Contract.Accepted c); simpl.
  2:{ split; [exact Hb|]. intros [H _]. discriminate H. }
  pose proof (bindCharacter_affiliated env db affiliations b
                (Contract.Donator c) Hb) as H1.
  destruct (bindCharacter env db affiliations b (Contract.Donator c))
    as [b1|v]; simpl.
  - destruct H1 as [Hb1 Hdon].
    pose proof (bindCharacter_affiliated env db affiliations b1
                  (Contract.Receiver c) Hb1) as H2.
    destruct (bindCharacter env db affiliations b1 (Contract.Receiver c))
      as [b2|v]; simpl.
    + destruct H2 as [Hb2 Hrec]. split.
      * intros charID Hin. apply Hb2.
        unfold applyContract in Hin.
        destruct addition;
          [destruct (addTotals c _ _)|destruct (removeTotals c _ _)];
          exact Hin.
      * intros [_ [H|H]]; congruence.
    + destruct H2 as [H ->]. eexists; eauto.
  - destruct H1 as [H ->]. eexists; eauto.
Qed.

(** C6, as the spec states it, fails for events that are skipped: a batch
    whose only event is a contract that was not accepted, with a receiver
    for which there is no affiliation, ends without panic and without
    error. *)
Lemma unaccepted_contract_not_fatal :
  hasAffiliation (Contract.Receiver contract_open) affiliations_ab = false /\
  SaveCharacterContracts SpecModel.addToContractTotals
    SpecModel.removeFromContractTotals env_ok ∅ [contract_open]
    affiliations_ab true = (Done None, ∅).
Proof. split; reflexivity. Qed.

(** C6, amended. A batch of donations in which some donation, or a batch of
    contracts in which some accepted contract, names a character for which
    the list has no affiliation ends in a panic that says so; nothing was
    written to the table. *)
Theorem missing_affiliation_is_fatal (env : Env) (db : Table)
  (affiliations : list Affiliation.t) (addition : bool) :
  (forall donations,
     Exists (donation_unaffiliated affiliations) donations ->
     exists v,
       unaffiliated_panic affiliations v /\
       SaveCharacterDonations env db donations affiliations addition =
         (Panicked v, db)) /\
  (forall addTotals removeTotals contracts,
     Exists (fun c => Contract.Accepted c = true /\
                      contract_unaffiliated affiliations c) contracts ->
     exists v,
       unaffiliated_panic affiliations v /\
       SaveCharacterContracts addTotals removeTotals env db contracts
         affiliations addition = (Panicked v, db)).
Proof.
  split.
  - intros donations Hbad.
    destruct (forEach_panics (donationStep env db affiliations addition)
                (all_affiliated affiliations)
                (donation_unaffiliated affiliations)
                (unaffiliated_panic affiliations)
                (fun b d => donationStep_affiliated env db affiliations
                              addition b d)
                donations emptyBatch (emptyBatch_affiliated affiliations)
                Hbad) as (v & Hv & Hloop).
    exists v. split; [exact Hv|].
    unfold SaveCharacterDonations, donationLoop. rewrite Hloop. reflexivity.
  - intros addTotals removeTotals contracts Hbad.
    destruct (forEach_panics
                (contractStep addTotals removeTotals env db affiliations
                   addition)
                (all_affiliated affiliations) _
                (unaffiliated_panic affiliations)
                (fun b c => contractStep_affiliated addTotals removeTotals
                              env db affiliations addition b c)
                contracts emptyBatch (emptyBatch_affiliated affiliations)
                Hbad) as (v & Hv & Hloop).
    exists v. split; [exact Hv|].
    unfold SaveCharacterContracts, contractLoop. rewrite Hloop. reflexivity.
Qed.

Lemma missing_affiliation_is_fatal_witness :
  (exists v,
     unaffiliated_panic affiliations_ab v /\
     SaveCharacterDonations env_ok table_12345 [donation_01; donation_to_300]
       affiliations_ab true = (Panicked v, table_12345)) /\
  (exists v,
     unaffiliated_panic affiliations_ab v /\
     SaveCharacterContracts SpecModel.addToContractTotals
       SpecModel.removeFromContractTotals env_ok table_12345
       [contract_accepted] affiliations_ab true = (Panicked v, table_12345)).
Proof.
  destruct (missing_affiliation_is_fatal env_ok table_12345 affiliations_ab
              true) as [Hdonations Hcontracts].
  split.
  - apply Hdonations. right. left. right. reflexivity.
  - apply Hcontracts. left. split; [reflexivity|]. right. reflexivity.
Defined.

(** ** Unaccepted contracts *)

Lemma forEach_app {A S : Type} (body : S -> A -> Outcome S)
  (xs ys : list A) (s : S) :
  forEach body (xs ++ ys) s = (s' ← forEach body xs s; forEach body ys s').
Proof.
  revert s. induction xs as [|x xs IH]; intros s; simpl.
  - reflexivity.
  - destruct (body s x) as [s'|v]; simpl; [apply IH|reflexivity].
Qed.

(** C4. A contract that was not accepted is skipped, whether the batch adds
    or removes: its turn of the loop leaves the batch as it was, with the
    same rows, none of them changed, and no character bound; the whole call
    returns what it returns, and leaves the table that it leaves, for the
    batch without that contract. *)
Theorem unaccepted_contract_is_skipped
  (addTotals removeTotals :
     Contract.t -> list CharacterRow.t -> list CharacterRow.t ->
     list CharacterRow.t * list CharacterRow.t)
  (env : Env) (db : Table) (affiliations : list Affiliation.t)
  (addition : bool) (contract : Contract.t) :
  Contract.Accepted contract = false ->
  (forall b,
     contractStep addTotals removeTotals env db affiliations addition b
       contract = Done b) /\
  (forall before after,
     SaveCharacterContracts addTotals removeTotals env db
       (before ++ contract :: after) affiliations addition =
     SaveCharacterContracts addTotals removeTotals env db
       (before ++ after) affiliations addition).
Proof.
  intros Hopen.
  assert (Hstep : forall b,
             contractStep addTotals removeTotals env db affiliations addition
               b contract = Done b).
  { intros b. unfold contractStep. rewrite Hopen. reflexivity. }
  split; [exact Hstep|].
  intros before after. unfold SaveCharacterContracts, contractLoop.
  rewrite !forEach_app.
  destruct (forEach _ before emptyBatch) as [b|v]; simpl; [|reflexivity].
  rewrite Hstep. reflexivity.
Qed.

Lemma unaccepted_contract_is_skipped_witness :
  (forall b,
     contractStep SpecModel.addToContractTotals
       SpecModel.removeFromContractTotals env_ok table_12345 affiliations_ab
       false b contract_open = Done b) /\
  (forall before after,
     SaveCharacterContracts SpecModel.addToContractTotals
       SpecModel.removeFromContractTotals env_ok table_12345
       (before ++ contract_open :: after) affiliations_ab false =
     SaveCharacterContracts SpecModel.addToContractTotals
       SpecModel.removeFromContractTotals env_ok table_12345
       (before ++ after) affiliations_ab false).
Proof.
  apply (unaccepted_contract_is_skipped SpecModel.addToContractTotals
           SpecModel.removeFromContractTotals env_ok table_12345
           affiliations_ab false contract_open).
  reflexivity.
Defined.

(** ** The commit *)

(** The table after one statement. *)
Lemma executeNamed_fault (env : Env) (key : Key) (char : CharacterRow.t)
  (db : Table) (e : string) :
  execFault env key char = Some e -> executeNamed env key char db = (Some e, db).
Proof. intros H. unfold executeNamed. rewrite H. reflexivity. Qed.

Lemma executeNamed_err (env : Env) (key : Key) (char : CharacterRow.t)
  (db : Table) :
  fst (executeNamed env key char db) = execFault env key char.
Proof.
  unfold executeNamed. destruct (execFault env key char); [reflexivity|].
  destruct key; [reflexivity| |reflexivity].
  destruct (db !! CharacterRow.ID char); reflexivity.
Qed.

Lemma executeNamed_other (env : Env) (key : Key) (char : CharacterRow.t)
  (db : Table) (id : Z) :
  id <> CharacterRow.ID char ->
  snd (executeNamed env key char db) !! id = db !! id.
Proof.
  intros Hne. unfold executeNamed.
  destruct (execFault env key char); [reflexivity|].
  destruct key; simpl.
  - apply lookup_insert_ne. congruence.
  - destruct (db !! CharacterRow.ID char); simpl; [|reflexivity].
    apply lookup_insert_ne. congruence.
  - reflexivity.
Qed.

(** What a statement leaves under the ID of its row depends on the table
    only through what was stored under that ID. *)
Lemma executeNamed_same (env : Env) (key : Key) (char : CharacterRow.t)
  (db1 db2 : Table) :
  db1 !! CharacterRow.ID char = db2 !! CharacterRow.ID char ->
  snd (executeNamed env key char db1) !! CharacterRow.ID char =
  snd (executeNamed env key char db2) !! CharacterRow.ID char.
Proof.
  intros H. unfold executeNamed.
  destruct (execFault env key char); [exact H|].
  destruct key; simpl.
  - rewrite !lookup_insert_eq. reflexivity.
  - rewrite <- H. destruct (db1 !! CharacterRow.ID char) eqn:H1; simpl.
    + rewrite !lookup_insert_eq. reflexivity.
    + congruence.
  - exact H.
Qed.

Lemma saveEach_written (env : Env) (key : Key) (chars : list CharacterRow.t)
  (failedChars : list string) (db : Table) :
  saveEach (fun char => executeChar env char key) chars failedChars db =
    (failedChars ++
       map (fun char => fmt_d (CharacterRow.ID char))
         (List.filter (fails env key) chars),
     written env key chars db)%list.
Proof.
  revert failedChars db.
  induction chars as [|char rest IH]; intros failedChars db; simpl.
  - rewrite app_nil_r. reflexivity.
  - unfold written. cbn [saveEach fold_left List.filter map].
    unfold executeChar at 1.
    pose proof (executeNamed_err env key char db) as Herr.
    destruct (executeNamed env key char db) as [err db'].
    cbn [fst snd] in *. subst err. rewrite IH. unfold written, fails at 2.
    destruct (execFault env key char); cbn [map]; [|reflexivity].
    rewrite <- app_assoc. reflexivity.
Qed.

Lemma written_other (env : Env) (key : Key) (chars : list CharacterRow.t)
  (db : Table) (id : Z) :
  ~ In id (map CharacterRow.ID chars) ->
  written env key chars db !! id = db !! id.
Proof.
  revert db. induction chars as [|char rest IH]; intros db Hid; simpl.
  - reflexivity.
  - simpl in Hid. unfold written in *. simpl. rewrite IH by tauto.
    apply executeNamed_other. intros ->. tauto.
Qed.

Lemma written_same (env : Env) (key : Key) (chars : list CharacterRow.t)
  (db : Table) (char : CharacterRow.t) :
  List.NoDup (map CharacterRow.ID chars) -> In char chars ->
  written env key chars db !! CharacterRow.ID char =
  snd (executeNamed env key char db) !! CharacterRow.ID char.
Proof.
  revert db. induction chars as [|x rest IH]; intros db Hnd Hin.
  - destruct Hin.
  - simpl in Hnd. apply NoDup_cons_iff in Hnd as [Hx Hnd].
    change (written env key (x :: rest) db)
      with (written env key rest (snd (executeNamed env key x db))).
    destruct Hin as [->|Hin].
    + apply written_other, Hx.
    + rewrite (IH _ Hnd Hin).
      apply executeNamed_same, executeNamed_other.
      intros Heq. apply Hx. rewrite <- Heq. apply in_map, Hin.
Qed.

Lemma in_failed (env : Env) (key : Key) (chars : list CharacterRow.t)
  (char : CharacterRow.t) :
  In char (List.filter (fails env key) chars) ->
  In char chars /\ exists e, execFault env key char = Some e.
Proof.
  intros H. apply filter_In in H as [Hin Hf]. split; [exact Hin|].
  unfold fails in Hf. destruct (execFault env key char); [eauto|discriminate].
Qed.

Lemma saveCharacters_written (env : Env)
  (new updated : list CharacterRow.t) (db : Table) :
  saveCharacters env new updated db =
    (aggregateError (failedRows env new updated),
     written env StmtUpdateCharacter updated
       (written env StmtCreateCharacter new db)).
Proof.
  unfold saveCharacters, NewCharacter, updateCharacter.
  rewrite (saveEach_written env StmtCreateCharacter).
  rewrite (saveEach_written env StmtUpdateCharacter).
  simpl. rewrite <- map_app. fold (failedRows env new updated).
  destruct (failedRows env new updated); reflexivity.
Qed.

(** C5. The commit runs an insert for every new row and an update for every
    other row, whatever fails on the way. It returns [nil] exactly when no
    statement fails, and otherwise one error that lists the IDs of the rows
    whose statement failed, inserts first. The IDs of the rows being
    pairwise distinct, every row whose statement succeeded is in the table
    afterwards, and a failure leaves the table as it was under that ID. *)
Theorem saveCharacters_best_effort (env : Env)
  (new updated : list CharacterRow.t) (db : Table) :
  let failed := failedRows env new updated in
  let result := saveCharacters env new updated db in
  fst result = aggregateError failed /\
  (fst result = None <-> failed = []) /\
  (List.NoDup (map CharacterRow.ID (new ++ updated)) ->
   committed env new updated db (snd result)).
Proof.
  intros failed result. subst result.
  rewrite saveCharacters_written. simpl. split; [reflexivity|]. split.
  - subst failed. destruct (failedRows env new updated); simpl.
    + tauto.
    + split; discriminate.
  - intros Hnd. rewrite map_app in Hnd.
    pose proof (NoDup_app_remove_r _ _ Hnd) as Hnew.
    pose proof (NoDup_app_remove_l _ _ Hnd) as Hupd.
    assert (Hdisj : forall id, In id (map CharacterRow.ID new) ->
                               In id (map CharacterRow.ID updated) -> False).
    { intros id H1 H2. revert Hnd H1 H2. clear.
      induction (map CharacterRow.ID new) as [|x xs IH]; simpl; [tauto|].
      intros Hnd [->|H1] H2.
      - apply NoDup_cons_iff in Hnd as [Hx _]. apply Hx, in_or_app. tauto.
      - apply NoDup_cons_iff in Hnd as [_ Hnd]. eauto. }
    repeat split.
    + intros char Hin Hok.
      rewrite written_other
        by (intros H; eapply Hdisj; [apply in_map, Hin|exact H]).
      rewrite (written_same _ _ _ _ _ Hnew Hin).
      unfold executeNamed. rewrite Hok. simpl. apply lookup_insert_eq.
    + intros char Hin Hok [stored Hstored].
      rewrite (written_same _ _ _ _ _ Hupd Hin).
      assert (Hdb : written env StmtCreateCharacter new db
                      !! CharacterRow.ID char = Some stored).
      { rewrite written_other; [exact Hstored|].
        intros H. eapply Hdisj; [exact H|apply in_map, Hin]. }
      unfold executeNamed. rewrite Hok, Hdb. simpl. apply lookup_insert_eq.
    + intros char Hin. unfold failedRows in Hin.
      apply in_app_or in Hin as [Hin|Hin];
        apply in_failed in Hin as (Hin & e & He).
      * rewrite written_other
          by (intros H; eapply Hdisj; [apply in_map, Hin|exact H]).
        rewrite (written_same _ _ _ _ _ Hnew Hin).
        rewrite (executeNamed_fault _ _ _ _ _ He). reflexivity.
      * rewrite (written_same _ _ _ _ _ Hupd Hin).
        rewrite (executeNamed_fault _ _ _ _ _ He). simpl.
        apply written_other.
        intros H. eapply Hdisj; [exact H|apply in_map, Hin].
Qed.

Lemma saveCharacters_best_effort_witness :
  fst (saveCharacters env_200_fails [donator_01] [recipient_200] table_200) =
    Some "failed to save character(s): 200" /\
  committed env_200_fails [donator_01] [recipient_200] table_200
    (snd (saveCharacters env_200_fails [donator_01] [recipient_200] table_200)).
Proof.
  destruct (saveCharacters_best_effort env_200_fails [donator_01]
              [recipient_200] table_200) as (Herr & _ & Hdb).
  split; [exact Herr|].
  apply Hdb. repeat constructor; simpl; intuition discriminate.
Defined.

(** ** The scenario of one donation *)

Lemma scenario_rows (ts : Time) :
  map (addToChar (scenario_donation ts))
    [affiliated affiliation_100 (CharacterRow.fresh 100);
     affiliated affiliation_200 (CharacterRow.fresh 200)] =
  [scenario_donator ts; scenario_recipient ts].
Proof. vm_compute. reflexivity. Qed.

(** C8. One donation of 500 ISK from character 100 to character 200 at T;
    the table has a row for neither, the affiliations put them in
    corporations 10 and 20 without alliance, and inserts succeed. Adding the
    batch binds two new rows and no other: row 100 with 1 donation of 500
    ISK, in the lifetime and in the 30-day fields, last donated at T, and
    row 200 with the same on the received side. The commit inserts both and
    reports no error. *)
Theorem single_donation_scenario (env : Env) (db : Table) (ts : Time) :
  db !! 100 = None ->
  db !! 200 = None ->
  (forall char, execFault env StmtCreateCharacter char = None) ->
  donationLoop env db [scenario_donation ts] affiliations_ab true =
    Done {| newCharacters := [scenario_donator ts; scenario_recipient ts];
            updatedCharacters := [];
            allCharacters := [100; 200] |} /\
  SaveCharacterDonations env db [scenario_donation ts] affiliations_ab true =
    (Done None,
     <[200 := scenario_recipient ts]> (<[100 := scenario_donator ts]> db)).
Proof.
  intros H100 H200 Hins.
  destruct (GetCharacter_not_found env db 100 H100) as [e1 He1].
  destruct (GetCharacter_not_found env db 200 H200) as [e2 He2].
  assert (Hloop :
    donationLoop env db [scenario_donation ts] affiliations_ab true =
      Done {| newCharacters := [scenario_donator ts; scenario_recipient ts];
              updatedCharacters := [];
              allCharacters := [100; 200] |}).
  { unfold donationLoop, forEach, donationStep.
    change (Donation.Donator (scenario_donation ts)) with 100.
    change (Donation.Recipient (scenario_donation ts)) with 200.
    rewrite (bindCharacter_load_failure env db 100 affiliations_ab
               affiliation_100 e1 emptyBatch eq_refl He1 eq_refl).
    cbn [mbind Outcome_bind].
    match goal with
    | |- context [bindCharacter env db affiliations_ab ?b 200] =>
        rewrite (bindCharacter_load_failure env db 200 affiliations_ab
                   affiliation_200 e2 b eq_refl He2 eq_refl)
    end.
    cbn [mbind Outcome_bind mret Outcome_ret].
    unfold applyDonation, addToTotals.
    cbn [newCharacters updatedCharacters allCharacters app map nth].
    rewrite scenario_rows. reflexivity. }
  split; [exact Hloop|].
  unfold SaveCharacterDonations. rewrite Hloop.
  cbn [newCharacters updatedCharacters].
  rewrite saveCharacters_written.
  unfold failedRows, written, fails, executeNamed.
  cbn [List.filter fold_left app]. rewrite !Hins.
  reflexivity.
Qed.

Lemma single_donation_scenario_witness :
  donationLoop env_ok ∅ [scenario_donation 5000] affiliations_ab true =
    Done {| newCharacters := [scenario_donator 5000; scenario_recipient 5000];
            updatedCharacters := [];
            allCharacters := [100; 200] |} /\
  SaveCharacterDonations env_ok ∅ [scenario_donation 5000] affiliations_ab
    true =
    (Done None,
     <[200 := scenario_recipient 5000]> (<[100 := scenario_donator 5000]> ∅)).
Proof.
  apply (single_donation_scenario env_ok ∅ 5000).
  - reflexivity.
  - reflexivity.
  - intros char. reflexivity.
Defined.

(** * Further properties of the ledger *)

(** ** The accumulator *)

Lemma addToChar_added (d : Donation.t) (c : CharacterRow.t) :
  added d c (addToChar d c).
Proof.
  unfold added, addToChar.
  destruct (CharacterRow.ID c =? Donation.Donator d).
  - simpl.
    destruct (advance_valid (CharacterRow.LastDonated c)
                (Donation.Timestamp d)) as [Hv Ht].
    rewrite Hv, Ht. repeat split.
  - destruct (CharacterRow.ID c =? Donation.Recipient d); simpl.
    + destruct (advance_valid (CharacterRow.LastReceived c)
                  (Donation.Timestamp d)) as [Hv Ht].
      rewrite Hv, Ht. repeat split.
    + repeat split.
Qed.

(** Additive application keeps the shape of the slices and never changes
    the ID, the affiliation or the standing flag of a row. In the row of the
    donator it adds one to both donated counts and the amount to both
    donated sums, and leaves a valid last donation that is the later of the
    stored one and the event; the received side is untouched. The row of a
    recipient that is not the donator gets the same on the received side. A
    row that takes no part is untouched. *)
Theorem addToTotals_frame (d : Donation.t)
  (characters : list (list CharacterRow.t)) :
  Forall2 (Forall2 (added d)) characters (addToTotals d characters).
Proof.
  unfold addToTotals.
  apply Forall2_map_rows with (P := fun _ => True).
  - intros c _. apply addToChar_added.
  - apply Forall_Forall_True.
Qed.

Lemma advance_comm (last : NullTime.t) (t1 t2 : Time) :
  advance (advance last t1) t2 = advance (advance last t2) t1.
Proof.
  destruct last as [t v]. unfold advance, Before. simpl.
  destruct v; simpl;
    repeat match goal with
      | |- context [?a <? ?b] => destruct (Z.ltb_spec a b); simpl
      end;
    first [reflexivity | f_equal; lia | lia].
Qed.

Lemma addToChar_swap (d1 d2 : Donation.t) (c : CharacterRow.t) :
  same_but_sums (addToChar d1 (addToChar d2 c))
    (addToChar d2 (addToChar d1 c)).
Proof.
  unfold same_but_sums, addToChar.
  destruct (CharacterRow.ID c =? Donation.Donator d1) eqn:E1,
    (CharacterRow.ID c =? Donation.Donator d2) eqn:E2,
    (CharacterRow.ID c =? Donation.Recipient d1) eqn:E3,
    (CharacterRow.ID c =? Donation.Recipient d2) eqn:E4;
    cbn [CharacterRow.ID]; rewrite ?E1, ?E2, ?E3, ?E4;
    cbn; repeat split; apply advance_comm.
Qed.

(** The order in which two events are added does not matter for the counts
    and for the timestamps of any row, nor for its ID, affiliation and
    standing flag: the two orders can only differ in the [float64] sums. *)
Theorem addToTotals_swap (d1 d2 : Donation.t)
  (characters : list (list CharacterRow.t)) :
  Forall2 (Forall2 same_but_sums)
    (addToTotals d1 (addToTotals d2 characters))
    (addToTotals d2 (addToTotals d1 characters)).
Proof.
  unfold addToTotals. rewrite !map_map.
  induction characters as [|chars rest IH]; simpl; constructor; [|exact IH].
  rewrite !map_map.
  induction chars as [|c cs IHcs]; simpl; constructor; [|exact IHcs].
  apply addToChar_swap.
Qed.

(** ** Affiliations *)

(** [getAffiliation] answers with the first affiliation of the list whose
    character has the ID that is asked for: an affiliation of the same
    character further down the list is never used. *)
Theorem getAffiliation_first (charID : int32)
  (affiliations : list Affiliation.t) (aff : Affiliation.t) :
  getAffiliation charID affiliations = Done aff <->
  exists before after,
    affiliations = (before ++ aff :: after)%list /\
    Name.ID (Affiliation.Character aff) = charID /\
    Forall (fun a => Name.ID (Affiliation.Character a) <> charID) before.
Proof.
  split.
  - induction affiliations as [|a rest IH]; simpl; [discriminate|].
    destruct (Z.eqb_spec (Name.ID (Affiliation.Character a)) charID) as [E|N].
    + intros [= <-]. exists [], rest. repeat split; [exact E|constructor].
    + intros H. destruct (IH H) as (before & after & -> & Hid & Hbefore).
      exists (a :: before), after. repeat split; [exact Hid|].
      constructor; assumption.
  - intros (before & after & -> & Hid & Hbefore).
    induction Hbefore as [|a before Ha _ IH]; simpl.
    + rewrite Hid, Z.eqb_refl. reflexivity.
    + apply Z.eqb_neq in Ha. rewrite Ha. exact IH.
Qed.

(** ** The two conversions *)

(** From a character to a row and back: the names are lost and the four
    sums are rounded; the IDs, the counts, the standing flag and both
    timestamps come back as they were. *)
Theorem toCharacter_toRow (c : Character.t) :
  toCharacter (toRow c) =
    {| Character.ID := Character.ID c;
       Character.Name := "";
       Character.CorporationID := Character.CorporationID c;
       Character.CorporationName := "";
       Character.AllianceID := Character.AllianceID c;
       Character.AllianceName := "";
       Character.Received := Character.Received c;
       Character.ReceivedISK := round2 (Character.ReceivedISK c);
       Character.Received30 := Character.Received30 c;
       Character.ReceivedISK30 := round2 (Character.ReceivedISK30 c);
       Character.Donated := Character.Donated c;
       Character.DonatedISK := round2 (Character.DonatedISK c);
       Character.Donated30 := Character.Donated30 c;
       Character.DonatedISK30 := round2 (Character.DonatedISK30 c);
       Character.LastDonated := Character.LastDonated c;
       Character.LastReceived := Character.LastReceived c;
       Character.GoodStanding := Character.GoodStanding c |}.
Proof.
  unfold toCharacter, toRow, IsZero. simpl.
  destruct (Z.eqb_spec (Character.LastDonated c) 0) as [-> | _],
    (Z.eqb_spec (Character.LastReceived c) 0) as [-> | _];
    reflexivity.
Qed.

Lemma normalized (t : Time) (v : bool) :
  let last := {| NullTime.Time := if v then t else 0;
                 NullTime.Valid := negb (IsZero (if v then t else 0)) |} in
  last = read_back {| NullTime.Time := t; NullTime.Valid := v |} /\
  normal last /\
  (last = {| NullTime.Time := t; NullTime.Valid := v |} <->
   normal {| NullTime.Time := t; NullTime.Valid := v |}) /\
  (v = false -> last = NullTime.zero).
Proof.
  unfold normal, read_back, IsZero. simpl.
  destruct v; simpl.
  - split; [destruct (Z.eqb_spec t 0) as [->|N]; reflexivity|].
    split; [reflexivity|]. split; [|discriminate].
    destruct (Z.eqb_spec t 0); simpl; split; congruence.
  - split; [reflexivity|].
    split; [reflexivity|]. split; [|reflexivity].
    destruct (Z.eqb_spec t 0) as [->|N]; simpl; split; congruence.
Qed.

(** From a row to a character and back: the ID, the affiliation, the
    counts and the standing flag come back as they were and the four sums
    rounded. A timestamp that is valid and not the zero time comes back as
    it is; any other one, be it not valid or valid at the zero time, comes
    back as not valid, at the zero time. So a timestamp comes back valid
    exactly when it is not the zero time, and it comes back as the stored
    one exactly when that was so already. *)
Theorem toRow_toCharacter (r : CharacterRow.t) :
  let r' := toRow (toCharacter r) in
  CharacterRow.ID r' = CharacterRow.ID r /\
  CharacterRow.CorporationID r' = CharacterRow.CorporationID r /\
  CharacterRow.AllianceID r' = CharacterRow.AllianceID r /\
  CharacterRow.GoodStanding r' = CharacterRow.GoodStanding r /\
  CharacterRow.Donated r' = CharacterRow.Donated r /\
  CharacterRow.Donated30 r' = CharacterRow.Donated30 r /\
  CharacterRow.Received r' = CharacterRow.Received r /\
  CharacterRow.Received30 r' = CharacterRow.Received30 r /\
  sums_rounded r r' /\
  (CharacterRow.LastDonated r' = read_back (CharacterRow.LastDonated r) /\
   normal (CharacterRow.LastDonated r') /\
   (CharacterRow.LastDonated r' = CharacterRow.LastDonated r <->
    normal (CharacterRow.LastDonated r)) /\
   (NullTime.Valid (CharacterRow.LastDonated r) = false ->
    CharacterRow.LastDonated r' = NullTime.zero)) /\
  (CharacterRow.LastReceived r' = read_back (CharacterRow.LastReceived r) /\
   normal (CharacterRow.LastReceived r') /\
   (CharacterRow.LastReceived r' = CharacterRow.LastReceived r <->
    normal (CharacterRow.LastReceived r)) /\
   (NullTime.Valid (CharacterRow.LastReceived r) = false ->
    CharacterRow.LastReceived r' = NullTime.zero)).
Proof.
  intros r'. subst r'.
  repeat (split; [reflexivity|]).
  split; [repeat split|].
  destruct r as [? ? ? ? ? ? ? ? ? ? ? [td vd] [tr vr] ?]. simpl.
  split; [apply (normalized td vd)|apply (normalized tr vr)].
Qed.

(** ** The names of a character *)

Lemma fillName_IDs (c : Character.t) (entry : int32 * string) :
  same_IDs c (fillName c entry).
Proof.
  destruct entry as [id name]. unfold same_IDs, fillName.
  destruct (id =? Character.ID c); [repeat split|].
  destruct (id =? Character.CorporationID c); [repeat split|].
  destruct (id =? Character.AllianceID c); repeat split.
Qed.

Lemma fold_fillName_IDs (names : list (int32 * string)) (c : Character.t) :
  same_IDs c (fold_left fillName names c).
Proof.
  revert c. induction names as [|entry names IH]; intros c; simpl.
  - repeat split.
  - destruct (IH (fillName c entry)) as (H1 & H2 & H3).
    destruct (fillName_IDs c entry) as (G1 & G2 & G3).
    unfold same_IDs. rewrite H1, H2, H3. auto.
Qed.

Lemma fillName_comm (c : Character.t) (e1 e2 : int32 * string) :
  fst e1 <> fst e2 ->
  fillName (fillName c e1) e2 = fillName (fillName c e2) e1.
Proof.
  destruct e1 as [i n], e2 as [j m]. simpl. intros Hne.
  unfold fillName.
  destruct (Z.eqb_spec i (Character.ID c)) as [Ei|Ni],
    (Z.eqb_spec j (Character.ID c)) as [Ej|Nj];
    try (exfalso; congruence);
    destruct (Z.eqb_spec i (Character.CorporationID c)) as [Fi|Mi],
      (Z.eqb_spec j (Character.CorporationID c)) as [Fj|Mj];
    try (exfalso; congruence);
    destruct (Z.eqb_spec i (Character.AllianceID c)) as [Gi|Li],
      (Z.eqb_spec j (Character.AllianceID c)) as [Gj|Lj];
    try (exfalso; congruence);
    cbn;
    repeat match goal with
      | |- context [?a =? ?b] =>
          destruct (Z.eqb_spec a b); try (exfalso; congruence)
      end;
    reflexivity.
Qed.

(** [names] is a Go map, which a loop visits in an order that is not
    specified: whatever the order in which the names come, their IDs being
    distinct, the loop leaves the same character. *)
Theorem fillName_any_order (names names' : list (int32 * string))
  (c : Character.t) :
  Permutation names names' ->
  List.NoDup (map fst names) ->
  fold_left fillName names c = fold_left fillName names' c.
Proof.
  intros Hperm. revert c.
  induction Hperm as [|e l l' _ IH|e1 e2 l|l l' l'' H1 IH1 H2 IH2];
    intros c Hnd; simpl in *.
  - reflexivity.
  - apply IH. apply NoDup_cons_iff in Hnd. tauto.
  - rewrite (fillName_comm c e2 e1); [reflexivity|].
    apply NoDup_cons_iff in Hnd as [Hin _]. simpl in Hin. intuition.
  - rewrite IH1 by exact Hnd. apply IH2.
    eapply Permutation_NoDup; [|exact Hnd].
    apply Permutation_map, H1.
Qed.

Lemma fillName_any_order_witness :
  fold_left fillName [(100, "a"); (10, "A")] (toCharacter donator_03) =
  fold_left fillName [(10, "A"); (100, "a")] (toCharacter donator_03).
Proof.
  apply (fillName_any_order [(100, "a"); (10, "A")] [(10, "A"); (100, "a")]).
  - apply perm_swap.
  - repeat constructor; simpl; intuition discriminate.
Defined.

Lemma fold_fillName_Name (names : list (int32 * string)) (c : Character.t) :
  (forall name, ~ In (Character.ID c, name) names) ->
  Character.Name (fold_left fillName names c) = Character.Name c.
Proof.
  revert c. induction names as [|[id name] names IH]; intros c Hno;
    cbn [fold_left].
  - reflexivity.
  - destruct (fillName_IDs c (id, name)) as (G1 & _ & _).
    rewrite IH.
    + unfold fillName.
      destruct (Z.eqb_spec id (Character.ID c)) as [->|N].
      * exfalso. apply (Hno name). left. reflexivity.
      * destruct (id =? Character.CorporationID c); [reflexivity|].
        destruct (id =? Character.AllianceID c); reflexivity.
    + intros n Hin. rewrite G1 in Hin. apply (Hno n). right. exact Hin.
Qed.

Lemma fold_fillName_CorporationName (names : list (int32 * string))
  (c : Character.t) :
  (forall name, ~ In (Character.CorporationID c, name) names) ->
  Character.CorporationName (fold_left fillName names c) =
    Character.CorporationName c.
Proof.
  revert c. induction names as [|[id name] names IH]; intros c Hno;
    cbn [fold_left].
  - reflexivity.
  - destruct (fillName_IDs c (id, name)) as (_ & G2 & _).
    rewrite IH.
    + unfold fillName.
      destruct (id =? Character.ID c); [reflexivity|].
      destruct (Z.eqb_spec id (Character.CorporationID c)) as [->|N].
      * exfalso. apply (Hno name). left. reflexivity.
      * destruct (id =? Character.AllianceID c); reflexivity.
    + intros n Hin. rewrite G2 in Hin. apply (Hno n). right. exact Hin.
Qed.

Lemma fold_fillName_AllianceName (names : list (int32 * string))
  (c : Character.t) :
  (forall name, ~ In (Character.AllianceID c, name) names) ->
  Character.AllianceName (fold_left fillName names c) =
    Character.AllianceName c.
Proof.
  revert c. induction names as [|[id name] names IH]; intros c Hno;
    cbn [fold_left].
  - reflexivity.
  - destruct (fillName_IDs c (id, name)) as (_ & _ & G3).
    rewrite IH.
    + unfold fillName.
      destruct (id =? Character.ID c); [reflexivity|].
      destruct (id =? Character.CorporationID c); [reflexivity|].
      destruct (Z.eqb_spec id (Character.AllianceID c)) as [->|N];
        [|reflexivity].
      exfalso. apply (Hno name). left. reflexivity.
    + intros n Hin. rewrite G3 in Hin. apply (Hno n). right. exact Hin.
Qed.

Lemma no_other_entry (names : list (int32 * string)) (id : int32)
  (name : string) :
  List.NoDup (id :: map fst names) -> ~ In (id, name) names.
Proof.
  intros Hnd Hin. apply NoDup_cons_iff in Hnd as [Hnot _]. apply Hnot.
  change id with (fst (id, name)). apply in_map, Hin.
Qed.

Lemma fold_fillName_Name_of (names : list (int32 * string))
  (c : Character.t) (name : string) :
  List.NoDup (map fst names) ->
  In (Character.ID c, name) names ->
  Character.Name (fold_left fillName names c) = name.
Proof.
  revert c. induction names as [|[id n] names IH]; intros c Hnd Hin;
    [destruct Hin|].
  cbn [fold_left]. simpl in Hnd.
  destruct (fillName_IDs c (id, n)) as (G1 & _ & _).
  destruct Hin as [[= -> ->]|Hin].
  - rewrite fold_fillName_Name.
    + unfold fillName. rewrite Z.eqb_refl. reflexivity.
    + rewrite G1. intros n'. apply no_other_entry, Hnd.
  - apply IH; [apply NoDup_cons_iff in Hnd; tauto|].
    rewrite G1. exact Hin.
Qed.

Lemma fold_fillName_CorporationName_of (names : list (int32 * string))
  (c : Character.t) (name : string) :
  List.NoDup (map fst names) ->
  In (Character.CorporationID c, name) names ->
  Character.CorporationID c <> Character.ID c ->
  Character.CorporationName (fold_left fillName names c) = name.
Proof.
  revert c. induction names as [|[id n] names IH]; intros c Hnd Hin Hne;
    [destruct Hin|].
  cbn [fold_left]. simpl in Hnd.
  destruct (fillName_IDs c (id, n)) as (G1 & G2 & _).
  destruct Hin as [[= -> ->]|Hin].
  - rewrite fold_fillName_CorporationName.
    + unfold fillName. apply Z.eqb_neq in Hne. rewrite Hne, Z.eqb_refl.
      reflexivity.
    + rewrite G2. intros n'. apply no_other_entry, Hnd.
  - apply IH; [apply NoDup_cons_iff in Hnd; tauto| |].
    + rewrite G2. exact Hin.
    + rewrite G1, G2. exact Hne.
Qed.

Lemma fold_fillName_AllianceName_of (names : list (int32 * string))
  (c : Character.t) (name : string) :
  List.NoDup (map fst names) ->
  In (Character.AllianceID c, name) names ->
  Character.AllianceID c <> Character.ID c ->
  Character.AllianceID c <> Character.CorporationID c ->
  Character.AllianceName (fold_left fillName names c) = name.
Proof.
  revert c.
  induction names as [|[id n] names IH]; intros c Hnd Hin Hne1 Hne2;
    [destruct Hin|].
  cbn [fold_left]. simpl in Hnd.
  destruct (fillName_IDs c (id, n)) as (G1 & G2 & G3).
  destruct Hin as [[= -> ->]|Hin].
  - rewrite fold_fillName_AllianceName.
    + unfold fillName. apply Z.eqb_neq in Hne1, Hne2.
      rewrite Hne1, Hne2, Z.eqb_refl. reflexivity.
    + rewrite G3. intros n'. apply no_other_entry, Hnd.
  - apply IH; [apply NoDup_cons_iff in Hnd; tauto| | |].
    + rewrite G3. exact Hin.
    + rewrite G1, G3. exact Hne1.
    + rewrite G2, G3. exact Hne2.
Qed.

(** The loop over [names], their IDs being distinct, leaves the three IDs
    of the character as they were and fills in the names by them: the name
    of the character; the name of the corporation, unless the corporation
    has the ID of the character, in which case its entry went to the name of
    the character; the name of the alliance, unless the alliance has the ID
    of the character or of the corporation. *)
Theorem getCharacterNames_filled (names : list (int32 * string))
  (c : Character.t) :
  List.NoDup (map fst names) ->
  same_IDs c (fold_left fillName names c) /\
  names_filled names c (fold_left fillName names c).
Proof.
  intros Hnd. split; [apply fold_fillName_IDs|].
  unfold names_filled. split; [|split].
  - intros name Hin. apply fold_fillName_Name_of; assumption.
  - intros name Hin Hne.
    apply fold_fillName_CorporationName_of; assumption.
  - intros name Hin Hne1 Hne2.
    apply fold_fillName_AllianceName_of; assumption.
Qed.

Lemma getCharacterNames_filled_witness :
  same_IDs (toCharacter donator_03)
    (fold_left fillName [(100, "a"); (10, "A")] (toCharacter donator_03)) /\
  names_filled [(100, "a"); (10, "A")] (toCharacter donator_03)
    (fold_left fillName [(100, "a"); (10, "A")] (toCharacter donator_03)).
Proof.
  apply (getCharacterNames_filled [(100, "a"); (10, "A")]
           (toCharacter donator_03)).
  repeat constructor; simpl; intuition discriminate.
Defined.

(** ** Loading, binding and the details *)

(** A character of which the table has no row: when neither the query nor
    the scan fails, the load ends with the error of [scanCharacterRow]. *)
Theorem GetCharacter_unknown (env : Env) (db : Table) (charID : int32) :
  db !! charID = None ->
  queryFault env charID = None ->
  scanFault env [] = None ->
  GetCharacter env db charID = Err "character not found".
Proof.
  intros Hdb Hq Hs.
  unfold GetCharacter, queryNamedResult, scanCharacterRow, scan.
  rewrite Hq, Hdb, Hs. reflexivity.
Qed.

Lemma GetCharacter_unknown_witness :
  GetCharacter env_ok table_12345 200 = Err "character not found".
Proof.
  apply (GetCharacter_unknown env_ok table_12345 200); reflexivity.
Defined.

Lemma affiliated_rebound (aff : Affiliation.t) (base : CharacterRow.t) :
  rebound aff base (affiliated aff base).
Proof.
  unfold rebound, affiliated.
  destruct (Affiliation.Alliance aff); simpl; repeat split.
Qed.

(** The row with which the binder answers starts from a zero-valued row of
    that ID when it reports the character as new, and otherwise from the
    stored row as it comes back through [toCharacter] and [toRow]. The
    binder keeps the ID, the counts, the sums, the timestamps and the
    standing flag of that row, so that a new character is never in good
    standing and an existing one keeps its flag; it always takes the
    corporation from the first affiliation of the character, and the
    alliance too when there is one: an affiliation without alliance leaves
    the alliance of the row as it was. *)
Theorem bindAffiliation_rebound (env : Env) (db : Table) (charID : int32)
  (affiliations : list Affiliation.t) (row : CharacterRow.t) (new : bool) :
  bindAffiliation env db charID affiliations = Done (row, new) ->
  exists aff base,
    getAffiliation charID affiliations = Done aff /\
    rebound aff base row /\
    if new then base = CharacterRow.fresh charID
    else exists stored,
           db !! charID = Some stored /\ base = toRow (toCharacter stored).
Proof.
  intros Hbind.
  destruct (getAffiliation charID affiliations) as [aff|v] eqn:Haff.
  2:{ unfold bindAffiliation in Hbind. rewrite Haff in Hbind. discriminate. }
  rewrite (bindAffiliation_unfold _ _ _ _ _ Haff) in Hbind.
  destruct (GetCharacter env db charID) as [char|e] eqn:Hload;
    injection Hbind as <- <-.
  - destruct (GetCharacter_Ok _ _ _ _ Hload) as (stored & Hdb & Hrow).
    exists aff, (toRow char). split; [reflexivity|].
    split; [apply affiliated_rebound|].
    exists stored. split; assumption.
  - exists aff, (CharacterRow.fresh charID). split; [reflexivity|].
    split; [apply affiliated_rebound|reflexivity].
Qed.

Lemma bindAffiliation_rebound_witness :
  exists aff base,
    getAffiliation 100 affiliations_ab = Done aff /\
    rebound aff base
      (affiliated affiliation_100 (toRow (toCharacter donator_12345))) /\
    exists stored,
      table_12345 !! 100 = Some stored /\ base = toRow (toCharacter stored).
Proof.
  apply (bindAffiliation_rebound env_ok table_12345 100 affiliations_ab
           (affiliated affiliation_100 (toRow (toCharacter donator_12345)))
           false).
  reflexivity.
Defined.

(** The details of a character are all or nothing: there are details
    exactly when the character and its four histories all load, and they are
    what was loaded; when the character itself does not load, its error is
    the one returned, whatever the histories would answer. *)
Theorem GetCharDetails_all_or_nothing
  (getCharContracts getCharContracted : int32 -> result (list Contract.t))
  (GetCharDonations GetCharDonated : int32 -> result (list Donation.t))
  (env : Env) (db : Table) (charID : int32) :
  (forall details,
     GetCharDetails getCharContracts getCharContracted GetCharDonations
       GetCharDonated env db charID = Ok details <->
     GetCharacter env db charID = Ok (CharDetails.Character details) /\
     getCharContracts charID = Ok (CharDetails.Contracts details) /\
     getCharContracted charID = Ok (CharDetails.Contracted details) /\
     GetCharDonations charID = Ok (CharDetails.Donations details) /\
     GetCharDonated charID = Ok (CharDetails.Donated details)) /\
  (forall e,
     GetCharacter env db charID = Err e ->
     GetCharDetails getCharContracts getCharContracted GetCharDonations
       GetCharDonated env db charID = Err e).
Proof.
  unfold GetCharDetails. split.
  - intros details. split.
    + destruct (GetCharacter env db charID); [|discriminate].
      destruct (getCharContracts charID); [|discriminate].
      destruct (getCharContracted charID); [|discriminate].
      destruct (GetCharDonations charID); [|discriminate].
      destruct (GetCharDonated charID); [|discriminate].
      intros [= <-]. repeat split.
    + intros (-> & -> & -> & -> & ->). destruct details; reflexivity.
  - intros e ->. reflexivity.
Qed.

(** ** The commit and the table *)

Lemma executeNamed_keyed (env : Env) (key : Key) (char : CharacterRow.t)
  (db : Table) :
  keyed db -> keyed (snd (executeNamed env key char db)).
Proof.
  intros Hk id row. unfold executeNamed.
  destruct (execFault env key char); [apply Hk|].
  assert (Hins : <[CharacterRow.ID char := char]> db !! id = Some row ->
                 CharacterRow.ID row = id).
  { rewrite lookup_insert. case_decide as Hid.
    - intros [= <-]. exact Hid.
    - apply Hk. }
  destruct key; simpl; [exact Hins| |apply Hk].
  destruct (db !! CharacterRow.ID char); simpl; [exact Hins|apply Hk].
Qed.

Lemma written_keyed (env : Env) (key : Key) (chars : list CharacterRow.t)
  (db : Table) :
  keyed db -> keyed (written env key chars db).
Proof.
  revert db. induction chars as [|char rest IH]; intros db Hk.
  - exact Hk.
  - apply (IH _ (executeNamed_keyed env key char db Hk)).
Qed.

(** A commit leaves the table as it was under every ID that is not the ID
    of one of its rows, and it leaves every row under its own ID when that
    was so before. *)
Theorem saveCharacters_frame (env : Env)
  (new updated : list CharacterRow.t) (db : Table) :
  (forall id,
     ~ In id (map CharacterRow.ID (new ++ updated)) ->
     snd (saveCharacters env new updated db) !! id = db !! id) /\
  (keyed db -> keyed (snd (saveCharacters env new updated db))).
Proof.
  rewrite saveCharacters_written. simpl. split.
  - intros id Hid. rewrite map_app in Hid.
    rewrite !written_other; [reflexivity| |];
      intros H; apply Hid, in_or_app; tauto.
  - intros Hk. apply written_keyed, written_keyed, Hk.
Qed.

(** ** The loop over a batch of donations *)

Lemma inInt32_In (x : int32) (xs : list int32) :
  inInt32 x xs = true <-> In x xs.
Proof.
  unfold inInt32. rewrite existsb_exists. split.
  - intros (y & Hin & Heq). apply Z.eqb_eq in Heq. subst. exact Hin.
  - intros Hin. exists x. split; [exact Hin|apply Z.eqb_refl].
Qed.

Lemma inInt32_not_In (x : int32) (xs : list int32) :
  inInt32 x xs = false <-> ~ In x xs.
Proof.
  rewrite <- inInt32_In. destruct (inInt32 x xs); split; congruence.
Qed.

Lemma In_addOnce (x y : int32) (all : list int32) :
  In x (addOnce y all) <-> In x all \/ x = y.
Proof.
  unfold addOnce. destruct (inInt32 y all) eqn:Hy.
  - apply inInt32_In in Hy. split; [tauto|]. intros [H| ->]; assumption.
  - rewrite in_app_iff. simpl. intuition.
Qed.

Lemma NoDup_addOnce (y : int32) (all : list int32) :
  List.NoDup all -> List.NoDup (addOnce y all).
Proof.
  intros Hnd. unfold addOnce. destruct (inInt32 y all) eqn:Hy; [exact Hnd|].
  apply inInt32_not_In in Hy.
  apply List.NoDup_app; [exact Hnd|repeat constructor; simpl; tauto|].
  intros x Hx [<-|[]]. exact (Hy Hx).
Qed.

Lemma participants_snoc (donations : list Donation.t) (d : Donation.t) :
  participants (donations ++ [d]) =
    addOnce (Donation.Recipient d)
      (addOnce (Donation.Donator d) (participants donations)).
Proof. unfold participants. rewrite fold_left_app. reflexivity. Qed.

Lemma NoDup_participants (donations : list Donation.t) :
  List.NoDup (participants donations).
Proof.
  induction donations as [|d rest IH] using rev_ind.
  - constructor.
  - rewrite participants_snoc. apply NoDup_addOnce, NoDup_addOnce, IH.
Qed.

Lemma In_participants (donations : list Donation.t) (charID : int32) :
  In charID (participants donations) <->
  exists d, In d donations /\
            (charID = Donation.Donator d \/ charID = Donation.Recipient d).
Proof.
  induction donations as [|d rest IH] using rev_ind.
  - simpl. split; [tauto|]. intros (d & [] & _).
  - rewrite participants_snoc, !In_addOnce, IH. split.
    + intros [[(d' & Hin & H)|H]|H].
      * exists d'. split; [apply in_or_app; tauto|exact H].
      * exists d. split; [apply in_or_app; simpl; tauto|tauto].
      * exists d. split; [apply in_or_app; simpl; tauto|tauto].
    + intros (d' & Hin & H). apply in_app_or in Hin as [Hin|[<-|[]]].
      * left. left. exists d'. tauto.
      * tauto.
Qed.

(** The binder's answer, named. *)
Lemma bindAffiliation_bound (env : Env) (db : Table) (charID : int32)
  (affiliations : list Affiliation.t) (row : CharacterRow.t) (new : bool) :
  bindAffiliation env db charID affiliations = Done (row, new) ->
  row = boundRow env db affiliations charID /\ new = isNew env db charID.
Proof.
  intros Hbind. unfold boundRow. rewrite Hbind. split; [reflexivity|].
  destruct (getAffiliation charID affiliations) as [aff|v] eqn:Haff.
  - rewrite (bindAffiliation_unfold _ _ _ _ _ Haff) in Hbind.
    unfold isNew. destruct (GetCharacter env db charID); congruence.
  - unfold bindAffiliation in Hbind. rewrite Haff in Hbind. discriminate.
Qed.

Lemma affiliated_ID (aff : Affiliation.t) (row : CharacterRow.t) :
  CharacterRow.ID (affiliated aff row) = CharacterRow.ID row.
Proof. unfold affiliated. destruct (Affiliation.Alliance aff); reflexivity. Qed.

Lemma boundRow_ID (env : Env) (db : Table)
  (affiliations : list Affiliation.t) (charID : int32) :
  keyed db ->
  CharacterRow.ID (boundRow env db affiliations charID) = charID.
Proof.
  intros Hk. unfold boundRow.
  destruct (getAffiliation charID affiliations) as [aff|v] eqn:Haff.
  - rewrite (bindAffiliation_unfold _ _ _ _ _ Haff).
    destruct (GetCharacter env db charID) as [char|e] eqn:Hload.
    + destruct (GetCharacter_Ok _ _ _ _ Hload) as (stored & Hdb & Hrow).
      rewrite affiliated_ID, Hrow. simpl. apply (Hk _ _ Hdb).
    + rewrite affiliated_ID. reflexivity.
  - unfold bindAffiliation. rewrite Haff. reflexivity.
Qed.

Lemma applyToChar_ID (addition : bool) (d : Donation.t) (c : CharacterRow.t) :
  CharacterRow.ID (applyToChar addition d c) = CharacterRow.ID c.
Proof.
  destruct addition; [apply addToChar_ID|apply removeFromChar_ID].
Qed.

Lemma applyAll_ID (addition : bool) (donations : list Donation.t)
  (c : CharacterRow.t) :
  CharacterRow.ID (applyAll addition donations c) = CharacterRow.ID c.
Proof.
  revert c. induction donations as [|d rest IH]; intros c; simpl.
  - reflexivity.
  - unfold applyAll in *. simpl. rewrite IH. apply applyToChar_ID.
Qed.

Lemma applyToChar_stranger (addition : bool) (d : Donation.t)
  (c : CharacterRow.t) :
  CharacterRow.ID c <> Donation.Donator d ->
  CharacterRow.ID c <> Donation.Recipient d ->
  applyToChar addition d c = c.
Proof.
  intros H1 H2. apply Z.eqb_neq in H1, H2.
  unfold applyToChar, addToChar, removeFromChar. rewrite H1, H2.
  destruct addition; reflexivity.
Qed.

Lemma applyAll_stranger (addition : bool) (donations : list Donation.t)
  (c : CharacterRow.t) :
  (forall d, In d donations ->
     CharacterRow.ID c <> Donation.Donator d /\
     CharacterRow.ID c <> Donation.Recipient d) ->
  applyAll addition donations c = c.
Proof.
  induction donations as [|d rest IH]; intros H.
  - reflexivity.
  - unfold applyAll in *. simpl.
    destruct (H d (or_introl eq_refl)) as [H1 H2].
    rewrite applyToChar_stranger by assumption.
    apply IH. intros d' Hd'. apply H. right. exact Hd'.
Qed.

Lemma finalRow_snoc (env : Env) (db : Table)
  (affiliations : list Affiliation.t) (addition : bool)
  (done : list Donation.t) (d : Donation.t) (charID : int32) :
  finalRow env db affiliations addition (done ++ [d]) charID =
    applyToChar addition d (finalRow env db affiliations addition done charID).
Proof. unfold finalRow, applyAll. rewrite fold_left_app. reflexivity. Qed.

Lemma filter_snoc {A : Type} (f : A -> bool) (l : list A) (x : A) :
  List.filter f (l ++ [x]) =
    (List.filter f l ++ if f x then [x] else [])%list.
Proof. rewrite List.filter_app. simpl. destruct (f x); reflexivity. Qed.

(** One turn of the loop over the participants keeps the invariant. *)
Lemma bindCharacter_inv (env : Env) (db : Table)
  (affiliations : list Affiliation.t) (addition : bool)
  (done : list Donation.t) (b b' : Batch) (charID : int32) :
  keyed db ->
  loop_inv env db affiliations addition done b ->
  bindCharacter env db affiliations b charID = Done b' ->
  loop_inv env db affiliations addition done b' /\
  allCharacters b' = addOnce charID (allCharacters b).
Proof.
  intros Hk (Hnew & Hupd & Hcov). unfold bindCharacter, addOnce.
  destruct (inInt32 charID (allCharacters b)) eqn:Hin.
  - intros [= <-]. split; [|reflexivity]. unfold loop_inv. auto.
  - destruct (bindAffiliation env db charID affiliations)
      as [[row new]|v] eqn:Hbind; simpl; [|discriminate].
    apply bindAffiliation_bound in Hbind as [-> ->].
    apply inInt32_not_In in Hin.
    assert (Hrow : finalRow env db affiliations addition done charID =
                   boundRow env db affiliations charID).
    { unfold finalRow. apply applyAll_stranger. intros d Hd.
      rewrite boundRow_ID by exact Hk.
      destruct (Hcov d Hd) as [H1 H2]. split; congruence. }
    assert (Hcov' : forall d, In d done ->
              In (Donation.Donator d) (allCharacters b ++ [charID]) /\
              In (Donation.Recipient d) (allCharacters b ++ [charID])).
    { intros d Hd. destruct (Hcov d Hd). split; apply in_or_app; tauto. }
    destruct (isNew env db charID) eqn:Hnewness; intros [= <-];
      (split; [|reflexivity]); unfold loop_inv;
      cbn [newCharacters updatedCharacters allCharacters];
      rewrite !filter_snoc, Hnewness, !map_app; cbn [negb map];
      rewrite ?app_nil_r, ?Hrow, <- Hnew, <- Hupd.
    all: split; [reflexivity|split; [reflexivity|exact Hcov']].
Qed.

Lemma applyDonation_rows (addition : bool) (d : Donation.t) (b : Batch) :
  newCharacters (applyDonation addition d b) =
    map (applyToChar addition d) (newCharacters b) /\
  updatedCharacters (applyDonation addition d b) =
    map (applyToChar addition d) (updatedCharacters b) /\
  allCharacters (applyDonation addition d b) = allCharacters b.
Proof. unfold applyDonation. destruct addition; repeat split. Qed.

(** One turn of the loop over the donations keeps the invariant. *)
Lemma donationStep_inv (env : Env) (db : Table)
  (affiliations : list Affiliation.t) (addition : bool)
  (done : list Donation.t) (b b' : Batch) (d : Donation.t) :
  keyed db ->
  loop_inv env db affiliations addition done b ->
  donationStep env db affiliations addition b d = Done b' ->
  loop_inv env db affiliations addition (done ++ [d]) b' /\
  allCharacters b' =
    addOnce (Donation.Recipient d)
      (addOnce (Donation.Donator d) (allCharacters b)).
Proof.
  intros Hk Hinv. unfold donationStep.
  destruct (bindCharacter env db affiliations b (Donation.Donator d))
    as [b1|v] eqn:Hb1; simpl; [|discriminate].
  destruct (bindCharacter env db affiliations b1 (Donation.Recipient d))
    as [b2|v] eqn:Hb2; simpl; [|discriminate].
  intros [= <-].
  pose proof (bindCharacter_known _ _ _ _ _ _ Hb1) as Hdon.
  pose proof (bindCharacter_known _ _ _ _ _ _ Hb2) as Hrec.
  destruct (bindCharacter_inv _ _ _ _ _ _ _ _ Hk Hinv Hb1) as [Hinv1 Hall1].
  destruct (bindCharacter_inv _ _ _ _ _ _ _ _ Hk Hinv1 Hb2)
    as [(Hnew & Hupd & Hcov) Hall2].
  destruct (applyDonation_rows addition d b2) as (Rnew & Rupd & Rall).
  split; [|rewrite Rall, Hall2, Hall1; reflexivity].
  unfold loop_inv. rewrite Rnew, Rupd, Rall, Hnew, Hupd, !map_map.
  repeat split.
  - apply map_ext. intros id. symmetry. apply finalRow_snoc.
  - apply map_ext. intros id. symmetry. apply finalRow_snoc.
  - apply in_app_or in H as [H|[<-|[]]]; [apply (Hcov _ H)|].
    apply inInt32_In in Hdon. rewrite Hall2. apply In_addOnce. tauto.
  - apply in_app_or in H as [H|[<-|[]]]; [apply (Hcov _ H)|].
    apply inInt32_In, Hrec.
Qed.

Lemma forEach_inv (env : Env) (db : Table)
  (affiliations : list Affiliation.t) (addition : bool)
  (donations done : list Donation.t) (b b' : Batch) :
  keyed db ->
  loop_inv env db affiliations addition done b ->
  allCharacters b = participants done ->
  forEach (donationStep env db affiliations addition) donations b = Done b' ->
  loop_inv env db affiliations addition (done ++ donations) b' /\
  allCharacters b' = participants (done ++ donations).
Proof.
  intros Hk. revert done b.
  induction donations as [|d rest IH]; intros done b Hinv Hall; simpl.
  - intros [= <-]. rewrite app_nil_r. split; assumption.
  - destruct (donationStep env db affiliations addition b d)
      as [b1|v] eqn:Hstep; simpl; [|discriminate].
    destruct (donationStep_inv _ _ _ _ _ _ _ _ Hk Hinv Hstep) as [Hinv1 Hall1].
    intros Hrest.
    replace (done ++ d :: rest)%list with ((done ++ [d]) ++ rest)%list
      by (rewrite <- app_assoc; reflexivity).
    apply (IH (done ++ [d])%list b1); [exact Hinv1| |exact Hrest].
    rewrite Hall1, Hall, participants_snoc. reflexivity.
Qed.

Lemma donationLoop_inv (env : Env) (db : Table)
  (donations : list Donation.t) (affiliations : list Affiliation.t)
  (addition : bool) (b : Batch) :
  keyed db ->
  donationLoop env db donations affiliations addition = Done b ->
  loop_inv env db affiliations addition donations b /\
  allCharacters b = participants donations.
Proof.
  intros Hk Hloop. unfold donationLoop in Hloop.
  apply (forEach_inv env db affiliations addition donations [] emptyBatch b
           Hk); [|reflexivity|exact Hloop].
  split; [reflexivity|split; [reflexivity|intros d []]].
Qed.

(** The loop of [SaveCharacterDonations], when it ends without panic over a
    table in which every row is stored under its own ID, has met the
    participants of the batch in the order of their first appearance, each
    once, and leaves for each of them the row with which the binder answers
    for it, with every event of the batch applied to it in order: in the
    slice of the new characters when its load fails, and in the slice of the
    characters to update when it loads. *)
Theorem donationLoop_rows (env : Env) (db : Table)
  (donations : list Donation.t) (affiliations : list Affiliation.t)
  (addition : bool) (b : Batch) :
  keyed db ->
  donationLoop env db donations affiliations addition = Done b ->
  allCharacters b = participants donations /\
  List.NoDup (allCharacters b) /\
  newCharacters b =
    map (finalRow env db affiliations addition donations)
      (List.filter (isNew env db) (participants donations)) /\
  updatedCharacters b =
    map (finalRow env db affiliations addition donations)
      (List.filter (fun id => negb (isNew env db id))
         (participants donations)).
Proof.
  intros Hk Hloop.
  destruct (donationLoop_inv _ _ _ _ _ _ Hk Hloop)
    as [(Hnew & Hupd & _) Hall].
  rewrite Hall in Hnew, Hupd. rewrite Hall.
  split; [reflexivity|]. split; [apply NoDup_participants|].
  split; assumption.
Qed.

Lemma keyed_table_12345 : keyed table_12345.
Proof.
  intros id row. unfold table_12345. rewrite lookup_insert.
  case_decide as Hid.
  - intros [= <-]. exact Hid.
  - rewrite lookup_empty. discriminate.
Qed.

Lemma donationLoop_rows_witness :
  allCharacters batch_0005 = participants [donation_0005] /\
  List.NoDup (allCharacters batch_0005) /\
  newCharacters batch_0005 =
    map (finalRow env_ok table_12345 affiliations_ab true [donation_0005])
      (List.filter (isNew env_ok table_12345)
         (participants [donation_0005])) /\
  updatedCharacters batch_0005 =
    map (finalRow env_ok table_12345 affiliations_ab true [donation_0005])
      (List.filter (fun id => negb (isNew env_ok table_12345 id))
         (participants [donation_0005])).
Proof.
  apply (donationLoop_rows env_ok table_12345 [donation_0005] affiliations_ab
           true batch_0005).
  - exact keyed_table_12345.
  - reflexivity.
Defined.

Lemma bindCharacter_Done (env : Env) (db : Table)
  (affiliations : list Affiliation.t) (b : Batch) (charID : int32) :
  hasAffiliation charID affiliations = true ->
  exists b', bindCharacter env db affiliations b charID = Done b'.
Proof.
  intros Haff. unfold bindCharacter.
  destruct (inInt32 charID (allCharacters b)); [eauto|].
  unfold bindAffiliation.
  destruct (getAffiliation_present _ _ Haff) as [aff ->]. simpl.
  destruct (GetCharacter env db charID); simpl; eauto.
Qed.

Lemma forEach_affiliated (env : Env) (db : Table)
  (affiliations : list Affiliation.t) (addition : bool)
  (donations : list Donation.t) (b b' : Batch) :
  all_affiliated affiliations b ->
  forEach (donationStep env db affiliations addition) donations b = Done b' ->
  donations_affiliated affiliations donations.
Proof.
  revert b. induction donations as [|d rest IH]; intros b Hb; simpl.
  - constructor.
  - pose proof (donationStep_affiliated env db affiliations addition b d Hb)
      as Hstep.
    destruct (donationStep env db affiliations addition b d) as [b1|v];
      simpl; [|discriminate].
    destruct Hstep as [Hb1 Hd]. intros Hrest.
    constructor; [|apply (IH b1 Hb1 Hrest)].
    unfold donation_unaffiliated in Hd.
    destruct (hasAffiliation (Donation.Donator d) affiliations),
      (hasAffiliation (Donation.Recipient d) affiliations);
      tauto.
Qed.

Lemma donationLoop_Done (env : Env) (db : Table)
  (donations : list Donation.t) (affiliations : list Affiliation.t)
  (addition : bool) :
  donations_affiliated affiliations donations ->
  exists b, donationLoop env db donations affiliations addition = Done b.
Proof.
  unfold donationLoop. intros Hall. generalize emptyBatch.
  induction Hall as [|d rest [Hdon Hrec] _ IH]; intros b; simpl.
  - eauto.
  - unfold donationStep.
    destruct (bindCharacter_Done env db affiliations b _ Hdon) as [b1 ->].
    simpl.
    destruct (bindCharacter_Done env db affiliations b1 _ Hrec) as [b2 ->].
    simpl. apply IH.
Qed.

(** The loop of [SaveCharacterDonations] ends without panic exactly when
    the list of affiliations has an entry for the donator and for the
    recipient of every donation of the batch; neither the table nor a
    failure of the store makes it panic. *)
Theorem donationLoop_completes (env : Env) (db : Table)
  (donations : list Donation.t) (affiliations : list Affiliation.t)
  (addition : bool) :
  (exists b, donationLoop env db donations affiliations addition = Done b) <->
  donations_affiliated affiliations donations.
Proof.
  split.
  - intros [b Hloop]. unfold donationLoop in Hloop.
    apply (forEach_affiliated env db affiliations addition donations
             emptyBatch b (emptyBatch_affiliated affiliations) Hloop).
  - apply donationLoop_Done.
Qed.

Lemma map_ID_finalRow (env : Env) (db : Table)
  (affiliations : list Affiliation.t) (addition : bool)
  (donations : list Donation.t) (ids : list int32) :
  keyed db ->
  map CharacterRow.ID (map (finalRow env db affiliations addition donations) ids)
  = ids.
Proof.
  intros Hk. rewrite map_map. rewrite <- (map_id ids) at 2.
  apply map_ext. intros id. unfold finalRow.
  rewrite applyAll_ID. apply boundRow_ID, Hk.
Qed.

Lemma isNew_false (env : Env) (db : Table) (charID : int32) :
  isNew env db charID = false -> is_Some (db !! charID).
Proof.
  unfold isNew. destruct (GetCharacter env db charID) as [char|e] eqn:Hload;
    [|discriminate].
  intros _. destruct (GetCharacter_Ok _ _ _ _ Hload) as (stored & -> & _).
  eauto.
Qed.

(** A batch of donations over a table in which every row is stored under
    its own ID, with an affiliation for every participant and a store whose
    statements do not fail: [SaveCharacterDonations] returns [nil]; the
    table then holds, for every participant, the row with which the binder
    answered for it with every donation of the batch applied in order; under
    any other ID the table is as it was, and every row is still stored under
    its own ID. *)
Theorem SaveCharacterDonations_commits (env : Env) (db : Table)
  (donations : list Donation.t) (affiliations : list Affiliation.t)
  (addition : bool) :
  keyed db ->
  donations_affiliated affiliations donations ->
  (forall key char, execFault env key char = None) ->
  let result :=
    SaveCharacterDonations env db donations affiliations addition in
  fst result = Done None /\
  (forall charID, In charID (participants donations) ->
     snd result !! charID =
       Some (finalRow env db affiliations addition donations charID)) /\
  (forall charID, ~ In charID (participants donations) ->
     snd result !! charID = db !! charID) /\
  keyed (snd result).
Proof.
  intros Hk Haff Hok result. subst result.
  destruct (donationLoop_Done env db donations affiliations addition Haff)
    as [b Hloop].
  destruct (donationLoop_inv _ _ _ _ _ _ Hk Hloop)
    as [(Hnew & Hupd & _) Hall].
  rewrite Hall in Hnew, Hupd.
  pose proof (NoDup_participants donations) as Hnd. rewrite <- Hall in Hnd.
  unfold SaveCharacterDonations. rewrite Hloop, saveCharacters_written.
  cbn [fst snd].
  set (final := finalRow env db affiliations addition donations) in *.
  assert (Hids_new : map CharacterRow.ID (newCharacters b) =
                     List.filter (isNew env db) (participants donations)).
  { rewrite Hnew. apply map_ID_finalRow, Hk. }
  assert (Hids_upd : map CharacterRow.ID (updatedCharacters b) =
                     List.filter (fun id => negb (isNew env db id))
                       (participants donations)).
  { rewrite Hupd. apply map_ID_finalRow, Hk. }
  assert (Hnd_new : List.NoDup (map CharacterRow.ID (newCharacters b))).
  { rewrite Hids_new. apply List.NoDup_filter. rewrite <- Hall. exact Hnd. }
  assert (Hnd_upd : List.NoDup (map CharacterRow.ID (updatedCharacters b))).
  { rewrite Hids_upd. apply List.NoDup_filter. rewrite <- Hall. exact Hnd. }
  assert (Hfinal_ID : forall id, CharacterRow.ID (final id) = id).
  { intros id. unfold final, finalRow. rewrite applyAll_ID.
    apply boundRow_ID, Hk. }
  repeat split.
  - f_equal. unfold failedRows.
    assert (Hnone : forall key chars,
               List.filter (fails env key) chars = []).
    { intros key chars. induction chars as [|c cs IH]; simpl; [reflexivity|].
      unfold fails at 1. rewrite Hok. exact IH. }
    rewrite !Hnone. reflexivity.
  - intros charID Hin. destruct (isNew env db charID) eqn:Hnewness.
    + assert (Hrow : In (final charID) (newCharacters b)).
      { rewrite Hnew. apply in_map, filter_In. split; assumption. }
      rewrite written_other.
      * rewrite <- (Hfinal_ID charID) at 1.
        rewrite (written_same _ _ _ _ _ Hnd_new Hrow).
        unfold executeNamed. rewrite Hok. simpl. apply lookup_insert_eq.
      * rewrite Hids_upd. intros H. apply filter_In in H as [_ H].
        rewrite Hnewness in H. discriminate.
    + assert (Hrow : In (final charID) (updatedCharacters b)).
      { rewrite Hupd. apply in_map, filter_In. split; [assumption|].
        rewrite Hnewness. reflexivity. }
      rewrite <- (Hfinal_ID charID) at 1.
      rewrite (written_same _ _ _ _ _ Hnd_upd Hrow).
      destruct (isNew_false _ _ _ Hnewness) as [stored Hstored].
      assert (Hdb : written env StmtCreateCharacter (newCharacters b) db
                      !! CharacterRow.ID (final charID) = Some stored).
      { rewrite Hfinal_ID, written_other; [exact Hstored|].
        rewrite Hids_new. intros H. apply filter_In in H as [_ H].
        congruence. }
      unfold executeNamed. rewrite Hok, Hdb. simpl. apply lookup_insert_eq.
  - intros charID Hout.
    rewrite !written_other; [reflexivity| |].
    + rewrite Hids_new. intros H. apply filter_In in H. tauto.
    + rewrite Hids_upd. intros H. apply filter_In in H. tauto.
  - apply written_keyed, written_keyed, Hk.
Qed.

Lemma SaveCharacterDonations_commits_witness :
  fst (SaveCharacterDonations env_ok table_12345 [donation_0005]
         affiliations_ab true) = Done None /\
  (forall charID, In charID (participants [donation_0005]) ->
     snd (SaveCharacterDonations env_ok table_12345 [donation_0005]
            affiliations_ab true) !! charID =
       Some (finalRow env_ok table_12345 affiliations_ab true
               [donation_0005] charID)) /\
  (forall charID, ~ In charID (participants [donation_0005]) ->
     snd (SaveCharacterDonations env_ok table_12345 [donation_0005]
            affiliations_ab true) !! charID = table_12345 !! charID) /\
  keyed (snd (SaveCharacterDonations env_ok table_12345 [donation_0005]
                affiliations_ab true)).
Proof.
  apply (SaveCharacterDonations_commits env_ok table_12345 [donation_0005]
           affiliations_ab true).
  - exact keyed_table_12345.
  - repeat constructor.
  - intros key char. reflexivity.
Defined.

(** ** The totals of a batch *)

Lemma wrap64_add (a b : Z) : wrap64 (wrap64 a + b) = wrap64 (a + b).
Proof.
  unfold wrap64.
  replace ((a + 2 ^ 63) mod 2 ^ 64 - 2 ^ 63 + b + 2 ^ 63)
    with ((a + 2 ^ 63) mod 2 ^ 64 + b) by lia.
  rewrite Zplus_mod_idemp_l. f_equal. f_equal. lia.
Qed.

Lemma applyToChar_wf (addition : bool) (d : Donation.t) (c : CharacterRow.t) :
  CharacterRow.wf c -> CharacterRow.wf (applyToChar addition d c).
Proof.
  unfold CharacterRow.wf, applyToChar, addToChar, removeFromChar.
  intros (H1 & H2 & H3 & H4).
  destruct addition;
    (destruct (CharacterRow.ID c =? Donation.Donator d);
     [|destruct (CharacterRow.ID c =? Donation.Recipient d)]);
    simpl; auto using wrap64_is_int64.
Qed.

Lemma applyAll_cons (addition : bool) (d : Donation.t)
  (rest : list Donation.t) (c : CharacterRow.t) :
  applyAll addition (d :: rest) c =
    applyAll addition rest (applyToChar addition d c).
Proof. reflexivity. Qed.

(** The events of a batch added to a row with 64-bit counters: both donated
    counts grow by the number of events of which its character is the
    donator, and both received counts by the number of events of which it is
    the recipient and not the donator, so that a donation of a character to
    itself counts as donated only; each sum is the stored sum with the
    amounts of those events added one by one in the order of the batch, in
    [float64] arithmetic and without rounding to 2 decimal places. *)
Theorem applyAll_added (donations : list Donation.t) (c : CharacterRow.t) :
  CharacterRow.wf c ->
  totals_added donations c (applyAll true donations c).
Proof.
  revert c. induction donations as [|d rest IH]; intros c Hwf.
  - destruct Hwf as (H1 & H2 & H3 & H4). unfold totals_added. simpl.
    rewrite !Z.add_0_r, !wrap64_small by assumption. repeat split.
  - rewrite applyAll_cons.
    specialize (IH _ (applyToChar_wf true d c Hwf)).
    unfold totals_added in *. rewrite applyToChar_ID in IH.
    unfold donatedIn, receivedIn in *. cbn [List.filter].
    destruct IH as (I1 & I2 & I3 & I4 & I5 & I6 & I7 & I8).
    rewrite I1, I2, I3, I4, I5, I6, I7, I8.
    unfold applyToChar, addToChar.
    destruct (CharacterRow.ID c =? Donation.Donator d) eqn:Hdon;
      [|destruct (CharacterRow.ID c =? Donation.Recipient d) eqn:Hrec];
      cbn [negb andb length sumFrom fold_left CharacterRow.Donated
             CharacterRow.Donated30 CharacterRow.Received
             CharacterRow.Received30 CharacterRow.DonatedISK
             CharacterRow.DonatedISK30 CharacterRow.ReceivedISK
             CharacterRow.ReceivedISK30];
      rewrite ?wrap64_add, ?Nat2Z.inj_succ;
      repeat split; f_equal; lia.
Qed.

Lemma applyAll_added_witness :
  totals_added [donation_02; self_donation] donator_01
    (applyAll true [donation_02; self_donation] donator_01).
Proof.
  apply (applyAll_added [donation_02; self_donation] donator_01).
  repeat split; vm_compute; intros; discriminate.
Defined.

Lemma wrap64_sub (a b : Z) : wrap64 (wrap64 a - b) = wrap64 (a - b).
Proof.
  replace (wrap64 a - b) with (wrap64 a + - b) by lia.
  rewrite wrap64_add. reflexivity.
Qed.

(** The events of a batch removed from a row with 64-bit counters: the two
    30-day counts go down by the number of events in which its character
    takes part on that side, the two 30-day sums by the amounts of those
    events, subtracted one by one in the order of the batch; the lifetime
    counts and sums and both timestamps stay as they are, however many
    events are removed. *)
Theorem applyAll_removed (donations : list Donation.t) (c : CharacterRow.t) :
  CharacterRow.wf c ->
  totals_removed donations c (applyAll false donations c).
Proof.
  revert c. induction donations as [|d rest IH]; intros c Hwf.
  - destruct Hwf as (H1 & H2 & H3 & H4).
    unfold totals_removed, same_lifetime. simpl.
    rewrite !Z.sub_0_r, !wrap64_small by assumption. repeat split.
  - rewrite applyAll_cons.
    specialize (IH _ (applyToChar_wf false d c Hwf)).
    unfold totals_removed, same_lifetime in *.
    rewrite applyToChar_ID in IH.
    unfold donatedIn, receivedIn in *. cbn [List.filter].
    destruct IH as (I1 & I2 & I3 & I4 & I5 & I6 & I7 & I8 & I9 & I10).
    rewrite I1, I2, I3, I4, I5, I6, I7, I8, I9, I10.
    unfold applyToChar, removeFromChar.
    destruct (CharacterRow.ID c =? Donation.Donator d) eqn:Hdon;
      [|destruct (CharacterRow.ID c =? Donation.Recipient d) eqn:Hrec];
      cbn [negb andb length lessFrom fold_left CharacterRow.Donated
             CharacterRow.Donated30 CharacterRow.Received
             CharacterRow.Received30 CharacterRow.DonatedISK
             CharacterRow.DonatedISK30 CharacterRow.ReceivedISK
             CharacterRow.ReceivedISK30 CharacterRow.LastDonated
             CharacterRow.LastReceived];
      rewrite ?wrap64_sub, ?Nat2Z.inj_succ;
      repeat split; f_equal; lia.
Qed.

Lemma applyAll_removed_witness :
  totals_removed [donation_02; self_donation] donator_01
    (applyAll false [donation_02; self_donation] donator_01).
Proof.
  apply (applyAll_removed [donation_02; self_donation] donator_01).
  repeat split; vm_compute; intros; discriminate.
Defined.

(** ** Batches of contracts *)

(** A loop skips the elements on which its body does nothing. *)
Lemma forEach_filter {A S : Type} (body : S -> A -> Outcome S)
  (keep : A -> bool) (xs : list A) (s : S) :
  (forall s x, keep x = false -> body s x = Done s) ->
  forEach body xs s = forEach body (List.filter keep xs) s.
Proof.
  intros Hskip. revert s. induction xs as [|x rest IH]; intros s; simpl.
  - reflexivity.
  - destruct (keep x) eqn:Hx; simpl.
    + destruct (body s x); simpl; [apply IH|reflexivity].
    + rewrite (Hskip s x Hx). simpl. apply IH.
Qed.

(** [SaveCharacterContracts] on a batch is [SaveCharacterContracts] on the
    accepted contracts of that batch, in the same order: the same result or
    panic and the same table, whatever the two accumulators for contracts
    do. *)
Theorem SaveCharacterContracts_accepted
  (addTotals removeTotals :
     Contract.t -> list CharacterRow.t -> list CharacterRow.t ->
     list CharacterRow.t * list CharacterRow.t)
  (env : Env) (db : Table) (contracts : list Contract.t)
  (affiliations : list Affiliation.t) (addition : bool) :
  SaveCharacterContracts addTotals removeTotals env db contracts affiliations
    addition =
  SaveCharacterContracts addTotals removeTotals env db
    (List.filter Contract.Accepted contracts) affiliations addition.
Proof.
  unfold SaveCharacterContracts, contractLoop.
  rewrite (forEach_filter _ Contract.Accepted contracts); [reflexivity|].
  intros b c Hc. unfold contractStep. rewrite Hc. reflexivity.
Qed.

(** ** Saving a character that was loaded *)

(** A character is loaded and saved again as it is, over a table in which
    every row is stored under its own ID and with an update that does not
    fail: the table then holds, under that ID, the stored row as it comes
    back through [toCharacter] and [toRow], and every other row as it
    was. *)
Theorem SaveCharacter_loaded (env : Env) (db : Table) (charID : int32)
  (char : Character.t) :
  keyed db ->
  GetCharacter env db charID = Ok char ->
  execFault env StmtUpdateCharacter (toRow char) = None ->
  fst (SaveCharacter env char db) = None /\
  exists stored,
    db !! charID = Some stored /\
    snd (SaveCharacter env char db) =
      <[charID := toRow (toCharacter stored)]> db.
Proof.
  intros Hk Hload Hok.
  destruct (GetCharacter_Ok _ _ _ _ Hload) as (stored & Hdb & Hrow).
  assert (Hid : CharacterRow.ID (toRow char) = charID).
  { rewrite Hrow. simpl. apply (Hk _ _ Hdb). }
  unfold SaveCharacter, updateCharacter, executeChar, executeNamed.
  rewrite Hok, Hid, Hdb. simpl. split; [reflexivity|].
  exists stored. split; [reflexivity|]. rewrite Hrow. reflexivity.
Qed.

Lemma SaveCharacter_loaded_witness :
  fst (SaveCharacter env_ok (toCharacter donator_12345) table_12345) = None /\
  exists stored,
    table_12345 !! 100 = Some stored /\
    snd (SaveCharacter env_ok (toCharacter donator_12345) table_12345) =
      <[100 := toRow (toCharacter stored)]> table_12345.
Proof.
  apply (SaveCharacter_loaded env_ok table_12345 100
           (toCharacter donator_12345)).
  - exact keyed_table_12345.
  - reflexivity.
  - reflexivity.
Defined.

(** ** The last donation after a batch *)

Lemma advance_facts (last : NullTime.t) (ts : Time) :
  NullTime.Valid (advance last ts) = true /\
  ts <= NullTime.Time (advance last ts) /\
  (NullTime.Valid last = true ->
   NullTime.Time last <= NullTime.Time (advance last ts)) /\
  (advance last ts = last \/
   advance last ts = {| NullTime.Time := ts; NullTime.Valid := true |}).
Proof.
  destruct last as [t v]. unfold advance, Before. simpl.
  destruct v; simpl.
  - destruct (Z.ltb_spec t ts); simpl; repeat split; auto; try lia.
  - repeat split; auto; try lia; try discriminate.
Qed.

Lemma addToChar_LastDonated_other (d : Donation.t) (c : CharacterRow.t) :
  (CharacterRow.ID c =? Donation.Donator d) = false ->
  CharacterRow.LastDonated (addToChar d c) = CharacterRow.LastDonated c.
Proof.
  intros H. unfold addToChar. rewrite H.
  destruct (CharacterRow.ID c =? Donation.Recipient d); reflexivity.
Qed.

(** The events of a batch added to a row, in whatever order they come: its
    last donation ends valid and not before any donation of its character in
    the batch, it never moves back from a valid stored one, and it is either
    the stored one or the time of one of those donations. *)
Theorem applyAll_lastDonated (donations : list Donation.t)
  (c : CharacterRow.t) :
  latest_donation donations c (applyAll true donations c).
Proof.
  revert c. induction donations as [|d rest IH]; intros c.
  - unfold latest_donation. simpl.
    split; [intros d []|]. split; [|left; reflexivity].
    intros H. split; [exact H|lia].
  - rewrite applyAll_cons. specialize (IH (applyToChar true d c)).
    unfold latest_donation in *. rewrite applyToChar_ID in IH.
    unfold donatedIn in *. cbn [List.filter].
    change (applyToChar true d c) with (addToChar d c) in *.
    destruct IH as (Hall & Hkeep & Hone).
    destruct (CharacterRow.ID c =? Donation.Donator d) eqn:Hdon.
    + apply Z.eqb_eq in Hdon.
      rewrite (addToChar_LastDonated d c Hdon) in Hkeep, Hone.
      destruct (advance_facts (CharacterRow.LastDonated c)
                  (Donation.Timestamp d)) as (Hv & Hts & Hold & Hcase).
      destruct (Hkeep Hv) as [Hv' Hle].
      split; [|split].
      * intros d' [<-|Hd']; [split; [exact Hv'|lia]|apply (Hall _ Hd')].
      * intros H. specialize (Hold H). split; [exact Hv'|lia].
      * destruct Hone as [Hone|(d' & Hd' & Hone)].
        -- destruct Hcase as [Hcase|Hcase].
           ++ left. congruence.
           ++ right. exists d. split; [left; reflexivity|congruence].
        -- right. exists d'. split; [right; exact Hd'|exact Hone].
    + rewrite (addToChar_LastDonated_other d c Hdon) in Hkeep, Hone.
      split; [exact Hall|]. split; [exact Hkeep|exact Hone].
Qed.
